(** * The TLS handshake coordinator of the QUIC connection

    A shallow embedding of [internal/quic/tls.go]: [Conn.startTLS],
    [Conn.handleTLSEvents], [tlsKey], [spaceForLevel] and
    [Conn.handleCrypto], together with the properties the specification
    states about them.

    The Go methods mutate the connection [c]; here the connection is a
    record passed in and returned.  A Go [error] result is an
    [option error] ([None] is [nil]); a function returning [(v, error)]
    returns a pair.  The [for] loop of [handleTLSEvents] has no bound of
    its own, so the embedding takes a number of iterations it may run
    ([Some] result: the loop returned within it). *)

From stdpp Require Import gmap list.
From Stdlib Require Import ZArith Lia.
From Stdlib.Strings Require Import Byte.

Local Open Scope Z_scope.

(** ** Data *)

(** [[]byte]. *)
Definition bytes := list byte.

(** [time.Time], as a count of clock ticks. *)
Definition Time := Z.

#[global] Instance byte_eq_dec : EqDecision byte := Byte.byte_eq_dec.

(** Errors.  The two messages built in [tls.go] have a constructor each;
    [errConflict] is the stream's protocol error; every other error is
    made by a collaborator and carried through unchanged. *)
Inductive error : Type :=
| errWriteLevel (level : Z)
    (* "quic: internal error: write handshake data at level %v" *)
| errUnexpectedSpace
    (* "quic: internal error: received CRYPTO frame in unexpected number space" *)
| errConflict
| errOther (code : Z).

#[global] Instance error_eq_dec : EqDecision error.
Proof. solve_decision. Defined.

(** *** [crypto/tls]: levels, event kinds, events *)

(** [type QUICEncryptionLevel int], constants by [iota]. *)
Definition QUICEncryptionLevel := Z.
Definition QUICEncryptionLevelInitial : QUICEncryptionLevel := 0.
Definition QUICEncryptionLevelEarly : QUICEncryptionLevel := 1.
Definition QUICEncryptionLevelHandshake : QUICEncryptionLevel := 2.
Definition QUICEncryptionLevelApplication : QUICEncryptionLevel := 3.

(** [type QUICEventKind int], constants by [iota]. *)
Definition QUICEventKind := Z.
Definition QUICNoEvent : QUICEventKind := 0.
Definition QUICSetReadSecret : QUICEventKind := 1.
Definition QUICSetWriteSecret : QUICEventKind := 2.
Definition QUICWriteData : QUICEventKind := 3.
Definition QUICTransportParameters : QUICEventKind := 4.
Definition QUICTransportParametersRequired : QUICEventKind := 5.
Definition QUICRejectedEarlyData : QUICEventKind := 6.
Definition QUICHandshakeDone : QUICEventKind := 7.

(** [tls.QUICEvent]. [Suite] is a [uint16]. *)
Record QUICEvent : Type := mkEvent {
  Kind : QUICEventKind;
  Level : QUICEncryptionLevel;
  Data : bytes;
  Suite : Z
}.

(** [tls.Config], the one field [tls.go] reads, and [tls.QUICConfig]. *)
Record Config : Type := mkConfig { SessionTicketsDisabled : bool }.
Record QUICConfig : Type := mkQUICConfig { TLSConfig : Config }.

(** The TLS engine, [*tls.QUICConn], is outside this package: an
    interface over its state [T].  A method that changes the engine
    returns the new engine next to its Go result. *)
Class QUICConn (T : Type) : Type := {
  QUICClient : QUICConfig → T;
  QUICServer : QUICConfig → T;
  SetTransportParameters : bytes → T → T;
  Start : T → T * option error;
  NextEvent : T → QUICEvent * T;
  HandleData : QUICEncryptionLevel → bytes → T → T * option error;
  SendSessionTicket : bool → T → T * option error
}.

(** The calls that hand the engine something after it was started, in the
    order they were made (a history of the connection, not a Go field). *)
Inductive engineCall : Type :=
| CallHandleData (level : QUICEncryptionLevel) (b : bytes)
| CallSendSessionTicket (earlyData : bool).

(** *** Package [quic]: number spaces and per-space arrays *)

(** [type numberSpace byte], constants by [iota]. *)
Definition numberSpace := Z.
Definition initialSpace : numberSpace := 0.
Definition handshakeSpace : numberSpace := 1.
Definition appDataSpace : numberSpace := 2.
Definition numberSpaceCount : Z := 3.

(** [[numberSpaceCount]A]: an array of exactly three elements. *)
Record perSpace (A : Type) : Type := PerSpace {
  atInitial : A;
  atHandshake : A;
  atAppData : A
}.
Arguments PerSpace {A} _ _ _.
Arguments atInitial {A} _.
Arguments atHandshake {A} _.
Arguments atAppData {A} _.

(** [a[i]]; [None] is Go's index-out-of-range panic. *)
Definition arr_get {A} (a : perSpace A) (i : numberSpace) : option A :=
  match i with
  | 0 => Some (atInitial a)
  | 1 => Some (atHandshake a)
  | 2 => Some (atAppData a)
  | _ => None
  end.

(** [a[i] = v]; [None] is Go's index-out-of-range panic. *)
Definition arr_set {A} (a : perSpace A) (i : numberSpace) (v : A)
  : option (perSpace A) :=
  match i with
  | 0 => Some (PerSpace v (atHandshake a) (atAppData a))
  | 1 => Some (PerSpace (atInitial a) v (atAppData a))
  | 2 => Some (PerSpace (atInitial a) (atHandshake a) v)
  | _ => None
  end.

Inductive connSide : Type := clientSide | serverSide.

#[global] Instance connSide_eq_dec : EqDecision connSide.
Proof. solve_decision. Defined.

(** Key derivation is a collaborator of this file: [newKeys(suite, secret)]
    and [initialKeys(cid)] are declared elsewhere in the package, as is the
    type [keys]; [zeroKeys] is [keys{}]. *)
Class KeySchedule (keys : Type) : Type := {
  zeroKeys : keys;
  newKeys : Z → bytes → keys * option error;
  initialKeys : bytes → keys * keys
}.

(** The transport-parameter codec, declared elsewhere in the package. *)
Class ParamCodec (transportParameters : Type) : Type := {
  marshalTransportParameters : transportParameters → bytes;
  unmarshalTransportParams : bytes → transportParameters * option error
}.

(** *** The handshake byte stream *)

(** Modelled from the spec: the type [cryptoStream] and its methods [write]
    and [handleCrypto] are not in this file.  The spec gives each space an
    inbound reorder buffer keyed by byte offset with the next expected
    offset (the delivery cursor), and an append-only outbound buffer. *)
Record cryptoStream : Type := CryptoStream {
  inbuf : gmap Z byte;
  incursor : Z;
  outbuf : bytes
}.

Definition emptyStream : cryptoStream := CryptoStream ∅ 0 [].

(** Modelled from the spec: [cryptoStream.write] appends to the outbound
    buffer. *)
Definition cryptoStream_write (b : bytes) (s : cryptoStream) : cryptoStream :=
  CryptoStream (inbuf s) (incursor s) (outbuf s ++ b).

(** Modelled from the spec: storing a span at an offset.  A byte already
    stored with the same content is kept (deduplicated); one stored with
    other content is a conflict, [None]. *)
Fixpoint insertAt (off : Z) (b : bytes) (m : gmap Z byte)
  : option (gmap Z byte) :=
  match b with
  | [] => Some m
  | x :: b' =>
      match m !! off with
      | Some y => if decide (x = y) then insertAt (off + 1) b' m else None
      | None => insertAt (off + 1) b' (<[off := x]> m)
      end
  end.

(** Modelled from the spec: the gap-free run of stored bytes that starts at
    offset [o], at most [n] bytes of it. *)
Fixpoint contiguous (n : nat) (m : gmap Z byte) (o : Z) : bytes :=
  match n with
  | O => []
  | S n' =>
      match m !! o with
      | Some x => x :: contiguous n' m (o + 1)
      | None => []
      end
  end.

(** Modelled from the spec: the longest gap-free prefix at the cursor.  A
    run of distinct offsets cannot be longer than the buffer has entries. *)
Definition available (s : cryptoStream) : bytes :=
  contiguous (size (inbuf s)) (inbuf s) (incursor s).

(** Modelled from the spec: [cryptoStream.handleCrypto(off, b, f)] stores
    the span, extracts the longest gap-free prefix at the cursor and hands
    it to [f]; the cursor advances only when [f] accepted the bytes.
    Conflicting content is a protocol error.  [f] acts on a state [S] of
    the caller's. *)
Definition cryptoStream_handleCrypto {S : Type} (off : Z) (b : bytes)
    (f : bytes → S → S * option error) (s : cryptoStream) (st : S)
  : cryptoStream * S * option error :=
  match insertAt off b (inbuf s) with
  | None => (s, st, Some errConflict)
  | Some m =>
      let s1 := CryptoStream m (incursor s) (outbuf s) in
      match available s1 with
      | [] => (s1, st, None)
      | chunk =>
          match f chunk st with
          | (st', Some err) => (s1, st', Some err)
          | (st', None) =>
              (CryptoStream m (incursor s + Z.of_nat (length chunk)) (outbuf s),
               st', None)
          end
      end
  end.

(** ** [spaceForLevel] and the switch of [handleCrypto] *)

Definition spaceForLevel (level : QUICEncryptionLevel)
  : numberSpace * option error :=
  if decide (level = QUICEncryptionLevelInitial) then (initialSpace, None)
  else if decide (level = QUICEncryptionLevelHandshake) then (handshakeSpace, None)
  else if decide (level = QUICEncryptionLevelApplication) then (appDataSpace, None)
  else (0, Some (errWriteLevel level)).

(** The [switch space] that opens [handleCrypto]; [None] is its [default]
    case, which returns the error. *)
Definition levelForSpace (space : numberSpace) : option QUICEncryptionLevel :=
  if decide (space = initialSpace) then Some QUICEncryptionLevelInitial
  else if decide (space = handshakeSpace) then Some QUICEncryptionLevelHandshake
  else if decide (space = appDataSpace) then Some QUICEncryptionLevelApplication
  else None.

(** How a call ends: it returns its [error] result, or the Go run time
    panics. *)
Inductive outcome : Type :=
| Returned (err : option error)
| Panicked.

(** What one pass through the body of the [for] loop does next. *)
Inductive flow : Type :=
| Continue
| Stop (o : outcome).

Section Coordinator.

Context {T keys transportParameters : Type}.
Context `{!QUICConn T, !KeySchedule keys, !ParamCodec transportParameters}.

(** ** The connection *)

(** The fields of [Conn] that [tls.go] touches.  [testHooks] is [nil]
    ([None]) or a hook, which here keeps the events it was shown.
    Modelled from the spec: [confirmHandshake] and
    [receiveTransportParameters] are not in this file; their state is the
    confirmation flag with its timestamp, set at most once, and the
    parameter sink, the values delivered in order. *)
Record Conn : Type := mkConn {
  side : connSide;
  config : QUICConfig;
  testHooks : option (list QUICEvent);
  rkeys : perSpace keys;
  wkeys : perSpace keys;
  crypto : perSpace cryptoStream;
  tls : T;
  handshakeConfirmed : option Time;
  peerParams : list transportParameters;
  calls : list engineCall
}.

Definition set_testHooks (h : option (list QUICEvent)) (c : Conn) : Conn :=
  mkConn (side c) (config c) h (rkeys c) (wkeys c) (crypto c) (tls c)
         (handshakeConfirmed c) (peerParams c) (calls c).
Definition set_rkeys (a : perSpace keys) (c : Conn) : Conn :=
  mkConn (side c) (config c) (testHooks c) a (wkeys c) (crypto c) (tls c)
         (handshakeConfirmed c) (peerParams c) (calls c).
Definition set_wkeys (a : perSpace keys) (c : Conn) : Conn :=
  mkConn (side c) (config c) (testHooks c) (rkeys c) a (crypto c) (tls c)
         (handshakeConfirmed c) (peerParams c) (calls c).
Definition set_crypto (a : perSpace cryptoStream) (c : Conn) : Conn :=
  mkConn (side c) (config c) (testHooks c) (rkeys c) (wkeys c) a (tls c)
         (handshakeConfirmed c) (peerParams c) (calls c).
Definition set_tls (t : T) (c : Conn) : Conn :=
  mkConn (side c) (config c) (testHooks c) (rkeys c) (wkeys c) (crypto c) t
         (handshakeConfirmed c) (peerParams c) (calls c).
Definition set_handshakeConfirmed (f : option Time) (c : Conn) : Conn :=
  mkConn (side c) (config c) (testHooks c) (rkeys c) (wkeys c) (crypto c)
         (tls c) f (peerParams c) (calls c).
Definition set_peerParams (p : list transportParameters) (c : Conn) : Conn :=
  mkConn (side c) (config c) (testHooks c) (rkeys c) (wkeys c) (crypto c)
         (tls c) (handshakeConfirmed c) p (calls c).
Definition set_calls (l : list engineCall) (c : Conn) : Conn :=
  mkConn (side c) (config c) (testHooks c) (rkeys c) (wkeys c) (crypto c)
         (tls c) (handshakeConfirmed c) (peerParams c) l.

(** Modelled from the spec: [Conn.confirmHandshake(now)] sets the
    confirmation flag with its timestamp; the flag is set at most once. *)
Definition confirmHandshake (now : Time) (c : Conn) : Conn :=
  match handshakeConfirmed c with
  | Some _ => c
  | None => set_handshakeConfirmed (Some now) c
  end.

(** Modelled from the spec: [Conn.receiveTransportParameters(p)] delivers
    [p] to the parameter sink. *)
Definition receiveTransportParameters (p : transportParameters) (c : Conn)
  : Conn :=
  set_peerParams (peerParams c ++ [p]) c.

(** ** [tlsKey] *)

Definition tlsKey (e : QUICEvent) : numberSpace * keys * option error :=
  match spaceForLevel (Level e) with
  | (_, Some err) => (0, zeroKeys, Some err)
  | (space, None) =>
      match newKeys (Suite e) (Data e) with
      | (_, Some err) => (0, zeroKeys, Some err)
      | (k, None) => (space, k, None)
      end
  end.

(** ** [Conn.handleTLSEvents] *)

(** Lines 44-47: take the next event from the engine and show it to the
    test hook when there is one. *)
Definition fetch (c : Conn) : QUICEvent * Conn :=
  let '(e, t) := NextEvent (tls c) in
  let c1 := set_tls t c in
  match testHooks c1 with
  | Some seen => (e, set_testHooks (Some (seen ++ [e])) c1)
  | None => (e, c1)
  end.

(** Lines 48-87: the [switch e.Kind].  It has no [default] case. *)
Definition dispatch (now : Time) (e : QUICEvent) (c : Conn) : Conn * flow :=
  if decide (Kind e = QUICNoEvent) then
    (c, Stop (Returned None))
  else if decide (Kind e = QUICSetReadSecret) then
    match tlsKey e with
    | (_, _, Some err) => (c, Stop (Returned (Some err)))
    | (space, k, None) =>
        match arr_set (rkeys c) space k with
        | Some a => (set_rkeys a c, Continue)
        | None => (c, Stop Panicked)
        end
    end
  else if decide (Kind e = QUICSetWriteSecret) then
    match tlsKey e with
    | (_, _, Some err) => (c, Stop (Returned (Some err)))
    | (space, k, None) =>
        match arr_set (wkeys c) space k with
        | Some a => (set_wkeys a c, Continue)
        | None => (c, Stop Panicked)
        end
    end
  else if decide (Kind e = QUICWriteData) then
    match spaceForLevel (Level e) with
    | (_, Some err) => (c, Stop (Returned (Some err)))
    | (space, None) =>
        match arr_get (crypto c) space with
        | Some s =>
            match arr_set (crypto c) space (cryptoStream_write (Data e) s) with
            | Some a => (set_crypto a c, Continue)
            | None => (c, Stop Panicked)
            end
        | None => (c, Stop Panicked)
        end
    end
  else if decide (Kind e = QUICHandshakeDone) then
    if decide (side c = serverSide) then
      let c1 := confirmHandshake now c in
      if negb (SessionTicketsDisabled (TLSConfig (config c1))) then
        let '(t, err) := SendSessionTicket false (tls c1) in
        let c2 :=
          set_calls (calls c1 ++ [CallSendSessionTicket false]) (set_tls t c1) in
        match err with
        | Some err => (c2, Stop (Returned (Some err)))
        | None => (c2, Continue)
        end
      else (c1, Continue)
    else (c, Continue)
  else if decide (Kind e = QUICTransportParameters) then
    match unmarshalTransportParams (Data e) with
    | (_, Some err) => (c, Stop (Returned (Some err)))
    | (params, None) => (receiveTransportParameters params c, Continue)
    end
  else (c, Continue).

(** One pass through the body of the loop. *)
Definition iteration (now : Time) (c : Conn) : Conn * flow :=
  let '(e, c1) := fetch c in dispatch now e c1.

(** The loop, run for at most [fuel] passes. *)
Fixpoint handleTLSEvents (fuel : nat) (now : Time) (c : Conn)
  : option (Conn * outcome) :=
  match fuel with
  | O => None
  | S fuel' =>
      match iteration now c with
      | (c', Continue) => handleTLSEvents fuel' now c'
      | (c', Stop o) => Some (c', o)
      end
  end.

(** ** [Conn.handleCrypto] *)

(** The closure [func(b []byte) error { return c.tls.HandleData(level, b) }],
    acting on the engine and the history of calls. *)
Definition feed (level : QUICEncryptionLevel) (b : bytes)
    (st : T * list engineCall) : (T * list engineCall) * option error :=
  let '(t, err) := HandleData level b (fst st) in
  ((t, snd st ++ [CallHandleData level b]), err).

(** Lines 119-135: the stream takes the frame and passes on to the engine
    what has become contiguous.  [Continue]: on to line 136. *)
Definition handleCryptoData (space : numberSpace) (off : Z) (data : bytes)
    (c : Conn) : Conn * flow :=
  match levelForSpace space with
  | None => (c, Stop (Returned (Some errUnexpectedSpace)))
  | Some level =>
      match arr_get (crypto c) space with
      | None => (c, Stop Panicked)
      | Some s =>
          let '(s', st, err) :=
            cryptoStream_handleCrypto off data (feed level) s (tls c, calls c) in
          match arr_set (crypto c) space s' with
          | None => (c, Stop Panicked)
          | Some a =>
              let c1 := set_calls (snd st) (set_tls (fst st) (set_crypto a c)) in
              match err with
              | Some err => (c1, Stop (Returned (Some err)))
              | None => (c1, Continue)
              end
          end
      end
  end.

Definition handleCrypto (fuel : nat) (now : Time) (space : numberSpace)
    (off : Z) (data : bytes) (c : Conn) : option (Conn * outcome) :=
  match handleCryptoData space off data c with
  | (c1, Stop o) => Some (c1, o)
  | (c1, Continue) => handleTLSEvents fuel now c1
  end.

(** ** [Conn.startTLS] *)

(** Lines 19-24: the keys of the initial space. *)
Definition installInitialKeys (initialConnID : bytes) (c : Conn) : Conn :=
  let '(clientKeys, serverKeys) := initialKeys initialConnID in
  if decide (side c = clientSide) then
    set_rkeys (PerSpace serverKeys (atHandshake (rkeys c)) (atAppData (rkeys c)))
      (set_wkeys (PerSpace clientKeys (atHandshake (wkeys c)) (atAppData (wkeys c))) c)
  else
    set_rkeys (PerSpace clientKeys (atHandshake (rkeys c)) (atAppData (rkeys c)))
      (set_wkeys (PerSpace serverKeys (atHandshake (wkeys c)) (atAppData (wkeys c))) c).

(** Lines 26-32: the engine for the connection's side, given the
    parameters. *)
Definition newEngine (params : transportParameters) (c : Conn) : Conn :=
  let qconfig := mkQUICConfig (TLSConfig (config c)) in
  let t := if decide (side c = clientSide)
           then QUICClient qconfig else QUICServer qconfig in
  set_tls (SetTransportParameters (marshalTransportParameters params) t) c.

Definition startTLS (fuel : nat) (now : Time) (initialConnID : bytes)
    (params : transportParameters) (c : Conn) : option (Conn * outcome) :=
  let c1 := newEngine params (installInitialKeys initialConnID c) in
  let '(t, err) := Start (tls c1) in
  let c2 := set_tls t c1 in
  match err with
  | Some err => Some (c2, Returned (Some err))
  | None => handleTLSEvents fuel now c2
  end.

End Coordinator.

(** ** Runs of the loop and the engine's stream of events *)

Section Runs.

Context {T keys transportParameters : Type}.
Context `{!QUICConn T, !KeySchedule keys, !ParamCodec transportParameters}.

Local Abbreviation Conn := (@Conn T keys transportParameters).

(** [k] passes through the loop body, none of which leaves the loop. *)
Fixpoint passes (k : nat) (now : Time) (c : Conn) : option Conn :=
  match k with
  | O => Some c
  | S k' =>
      match iteration now c with
      | (c', Continue) => passes k' now c'
      | (_, Stop _) => None
      end
  end.

(** The engine [t] yields [QUICNoEvent] after at most [n] other events, all
    of them accepted by [ok], whether or not it is asked for a session
    ticket after a [QUICHandshakeDone] (the one call the loop may make on
    the engine between two events). *)
Fixpoint eventsWithin (ok : QUICEvent → bool) (n : nat) (t : T) : bool :=
  let '(e, t') := NextEvent t in
  if decide (Kind e = QUICNoEvent) then true
  else
    match n with
    | O => false
    | S n' =>
        ok e && eventsWithin ok n' t' &&
        (if decide (Kind e = QUICHandshakeDone)
         then eventsWithin ok n' (fst (SendSessionTicket false t'))
         else true)
    end.

Definition quiescesWithin : nat → T → bool := eventsWithin (λ _, true).

(** [c'] is [c] but for the engine and what the test hook saw: the state
    [fetch] leaves alone. *)
Definition sameButEngine (c c' : Conn) : Prop :=
  side c' = side c ∧ config c' = config c ∧ rkeys c' = rkeys c ∧
  wkeys c' = wkeys c ∧ crypto c' = crypto c ∧
  handshakeConfirmed c' = handshakeConfirmed c ∧
  peerParams c' = peerParams c ∧ calls c' = calls c.

(** The loop, started on [c], leaves through its [return] after at most
    [n] passes that went round, giving [c'] and [o]: it does not panic; the
    result is [nil] exactly when the last event fetched was [QUICNoEvent];
    it is an error exactly when the last event fetched was another one and
    the [switch] returned that error for it. *)
Definition drainsTo (n : nat) (now : Time) (c c' : Conn) (o : outcome) : Prop :=
  ∃ k ck, (k ≤ n)%nat ∧ passes k now c = Some ck ∧
    iteration now ck = (c', Stop o) ∧
    o ≠ Panicked ∧
    (o = Returned None ↔ Kind (fst (fetch ck)) = QUICNoEvent) ∧
    (∀ err, o = Returned (Some err) ↔
       Kind (fst (fetch ck)) ≠ QUICNoEvent ∧
       snd (dispatch now (fst (fetch ck)) (snd (fetch ck)))
         = Stop (Returned (Some err))).

(** An event that installs keys of the initial space. *)
Definition setsInitialSecret (e : QUICEvent) : bool :=
  bool_decide (Kind e = QUICSetReadSecret ∨ Kind e = QUICSetWriteSecret) &&
  bool_decide (Level e = QUICEncryptionLevelInitial).

(** Deliveries of CRYPTO data to one space, one [handleCrypto] call after
    the other, as long as each returns [nil]. *)
Fixpoint deliverAll (fuel : nat) (now : Time) (space : numberSpace)
    (frames : list (Z * bytes)) (c : Conn) : option (Conn * outcome) :=
  match frames with
  | [] => Some (c, Returned None)
  | (off, data) :: rest =>
      match handleCrypto fuel now space off data c with
      | Some (c', Returned None) => deliverAll fuel now space rest c'
      | r => r
      end
  end.

End Runs.

(** The bytes handed to the engine at [level], call by call. *)
Definition fedAt (level : QUICEncryptionLevel) (l : list engineCall)
  : list bytes :=
  omap (λ call, match call with
                | CallHandleData lv b =>
                    if decide (lv = level) then Some b else None
                | CallSendSessionTicket _ => None
                end) l.

(** The [n] bytes of a byte stream [D] from offset [off] on. *)
Fixpoint slice (D : Z → byte) (off : Z) (n : nat) : bytes :=
  match n with
  | O => []
  | S n' => D off :: slice D (off + 1) n'
  end.



(** ** A scripted engine and symbolic collaborators

    An engine that replays a script, keys that record how they were
    derived, and a codec over raw bytes: enough to run the coordinator on
    concrete inputs. *)
Module Fake.

(** [pending]: the events not yet fetched; [replies]: the events released
    by each coming [HandleData] call. *)
Record engine : Type := mkEngine {
  pending : list QUICEvent;
  replies : list (list QUICEvent)
}.

Definition noEvent : QUICEvent := mkEvent QUICNoEvent 0 [] 0.

(** What a client has to say once started, and after the first bytes
    from the server. *)
Definition clientScript : engine :=
  mkEngine
    [mkEvent QUICWriteData QUICEncryptionLevelInitial ["c"%byte] 0]
    [[mkEvent QUICSetReadSecret QUICEncryptionLevelHandshake ["r"%byte] 0x1301;
      mkEvent QUICSetWriteSecret QUICEncryptionLevelHandshake ["w"%byte] 0x1301;
      mkEvent QUICHandshakeDone 0 [] 0]].

(** A server waits for the client's first bytes. *)
Definition serverScript : engine :=
  mkEngine []
    [[mkEvent QUICTransportParameters 0 ["p"%byte] 0;
      mkEvent QUICWriteData QUICEncryptionLevelInitial ["s"%byte] 0;
      mkEvent QUICSetWriteSecret QUICEncryptionLevelHandshake ["r"%byte] 0x1301;
      mkEvent QUICSetReadSecret QUICEncryptionLevelHandshake ["w"%byte] 0x1301];
     [mkEvent QUICHandshakeDone 0 [] 0]].

#[global] Instance engine_QUICConn : QUICConn engine := {
  QUICClient _ := clientScript;
  QUICServer _ := serverScript;
  SetTransportParameters _ t := t;
  Start t := (t, None);
  NextEvent t :=
    match pending t with
    | [] => (noEvent, t)
    | e :: rest => (e, mkEngine rest (replies t))
    end;
  HandleData _ _ t :=
    match replies t with
    | [] => (t, None)
    | r :: rs => (mkEngine (pending t ++ r) rs, None)
    end;
  SendSessionTicket _ t :=
    (mkEngine (pending t ++ [mkEvent QUICWriteData QUICEncryptionLevelApplication
                               ["t"%byte] 0]) (replies t), None)
}.

Inductive keys : Type :=
| unset
| derived (suite : Z) (secret : bytes)
| initial (server : bool) (cid : bytes).

(** The three TLS 1.3 suites have keys; any other suite is an error. *)
#[global] Instance keys_KeySchedule : KeySchedule keys := {
  zeroKeys := unset;
  newKeys suite secret :=
    if decide (suite = 0x1301 ∨ suite = 0x1302 ∨ suite = 0x1303)
    then (derived suite secret, None)
    else (unset, Some (errOther 1));
  initialKeys cid := (initial false cid, initial true cid)
}.

(** Parameters are their own encoding; the empty payload does not parse. *)
#[global] Instance bytes_ParamCodec : ParamCodec bytes := {
  marshalTransportParameters p := p;
  unmarshalTransportParams b :=
    match b with
    | [] => ([], Some (errOther 2))
    | _ => (b, None)
    end
}.

(** A byte stream to cut frames from: offset [o] holds the byte [o mod 256]. *)
Definition text (o : Z) : byte :=
  default "000"%byte (Byte.of_N (Z.to_N (o `mod` 256))).

Definition conn (s : connSide) (ticketsDisabled : bool) (script : list QUICEvent)
  : @Conn engine keys bytes :=
  mkConn s (mkQUICConfig (mkConfig ticketsDisabled)) None
    (PerSpace unset unset unset) (PerSpace unset unset unset)
    (PerSpace emptyStream emptyStream emptyStream)
    (mkEngine script []) None [] [].

End Fake.

(** An engine that cannot be started: [Start] fails and there is never an
    event. *)
Module Broken.

Inductive engine : Type := client | server.

#[global] Instance engine_QUICConn : QUICConn engine := {
  QUICClient _ := client;
  QUICServer _ := server;
  SetTransportParameters _ t := t;
  Start t := (t, Some (errOther 3));
  NextEvent t := (Fake.noEvent, t);
  HandleData _ _ t := (t, None);
  SendSessionTicket _ t := (t, None)
}.

Definition conn (s : connSide) : @Conn engine Fake.keys bytes :=
  mkConn s (mkQUICConfig (mkConfig false)) None
    (PerSpace Fake.unset Fake.unset Fake.unset)
    (PerSpace Fake.unset Fake.unset Fake.unset)
    (PerSpace emptyStream emptyStream emptyStream)
    client None [] [].

End Broken.

(** ** The events of a run *)

Section Traces.

Context {T keys transportParameters : Type}.
Context `{!QUICConn T, !KeySchedule keys, !ParamCodec transportParameters}.

Local Abbreviation Conn := (@Conn T keys transportParameters).

(** The events the loop fetches in at most [k] passes, oldest first.  The
    event of a pass that leaves the loop is the last one. *)
Fixpoint fetched (k : nat) (now : Time) (c : Conn) : list QUICEvent :=
  match k with
  | O => []
  | S k' =>
      let '(e, c1) := fetch c in
      match dispatch now e c1 with
      | (c', Continue) => e :: fetched k' now c'
      | (_, Stop _) => [e]
      end
  end.



(** The bytes event [e] has for the outbound stream of [space]. *)
Definition writtenTo (space : numberSpace) (e : QUICEvent) : option bytes :=
  if decide (Kind e = QUICWriteData) then
    match spaceForLevel (Level e) with
    | (sp, None) => if decide (sp = space) then Some (Data e) else None
    | (_, Some _) => None
    end
  else None.

(** The transport parameters event [e] carries, when they parse. *)
Definition parsedParams (e : QUICEvent) : option transportParameters :=
  if decide (Kind e = QUICTransportParameters) then
    match unmarshalTransportParams (Data e) with
    | (p, None) => Some p
    | (_, Some _) => None
    end
  else None.

(** On connection [c], event [e] makes the loop ask the engine for a
    session ticket. *)
Definition asksTicket (c : Conn) (e : QUICEvent) : bool :=
  bool_decide (Kind e = QUICHandshakeDone) &&
  bool_decide (side c = serverSide) &&
  negb (SessionTicketsDisabled (TLSConfig (config c))).

(** The engine after [n] calls of [NextEvent] and no other call. *)
Fixpoint afterEvents (n : nat) (t : T) : T :=
  match n with
  | O => t
  | S n' => afterEvents n' (snd (NextEvent t))
  end.

End Traces.

(** * Properties *)

(** ** The mapping between number spaces and encryption levels *)

Lemma spaceForLevel_known level space :
  spaceForLevel level = (space, None) →
  (level = QUICEncryptionLevelInitial ∧ space = initialSpace) ∨
  (level = QUICEncryptionLevelHandshake ∧ space = handshakeSpace) ∨
  (level = QUICEncryptionLevelApplication ∧ space = appDataSpace).
Proof.
  unfold spaceForLevel. repeat case_decide; intros [= <-]; auto.
Qed.

Lemma spaceForLevel_unknown level :
  level ∉ [QUICEncryptionLevelInitial; QUICEncryptionLevelHandshake;
           QUICEncryptionLevelApplication] →
  spaceForLevel level = (0, Some (errWriteLevel level)).
Proof.
  intros Hl. unfold spaceForLevel.
  repeat case_decide; subst; try done; exfalso; apply Hl; set_solver.
Qed.

(** The index [spaceForLevel] returns without an error is within the
    per-space arrays: indexing with it cannot panic. *)
Lemma spaceForLevel_in_range {A} level space (a : perSpace A) :
  spaceForLevel level = (space, None) →
  is_Some (arr_get a space) ∧ ∀ v, is_Some (arr_set a space v).
Proof.
  intros H. apply spaceForLevel_known in H as [[_ ->]|[[_ ->]|[_ ->]]];
    split; intros; eexists; reflexivity.
Qed.

Lemma arr_get_set {A} (a a' : perSpace A) i v :
  arr_set a i v = Some a' → arr_get a' i = Some v.
Proof.
  unfold arr_set, arr_get.
  destruct i as [|[[]|[]|]|]; intros [= <-]; reflexivity.
Qed.

Lemma arr_get_set_ne {A} (a a' : perSpace A) i j v :
  arr_set a i v = Some a' → i ≠ j → arr_get a' j = arr_get a j.
Proof.
  unfold arr_set, arr_get.
  destruct i as [|[[]|[]|]|]; intros [= <-] Hne;
    destruct j as [|[[]|[]|]|]; try reflexivity; congruence.
Qed.

Section Mapping.

Context {T keys transportParameters : Type}.
Context `{!QUICConn T, !KeySchedule keys, !ParamCodec transportParameters}.

Local Abbreviation Conn := (@Conn T keys transportParameters).

(** C5. The mapping between number spaces and encryption levels is total
    and bidirectional on the three known values: a known space maps to a
    level that [spaceForLevel] maps back to it, and a known level maps to
    a space that the switch of [handleCrypto] maps back to it.  A level
    outside the three makes [spaceForLevel] return an error, and a space
    outside the three makes [handleCrypto] return an error with the
    connection untouched; neither falls back on a default. *)
Theorem C5_space_level_bijection :
  (∀ space, space ∈ [initialSpace; handshakeSpace; appDataSpace] →
     ∃ level, levelForSpace space = Some level ∧
              spaceForLevel level = (space, None)) ∧
  (∀ level, level ∈ [QUICEncryptionLevelInitial; QUICEncryptionLevelHandshake;
                     QUICEncryptionLevelApplication] →
     ∃ space, spaceForLevel level = (space, None) ∧
              levelForSpace space = Some level) ∧
  (∀ level, level ∉ [QUICEncryptionLevelInitial; QUICEncryptionLevelHandshake;
                     QUICEncryptionLevelApplication] →
     ∃ err, spaceForLevel level = (0, Some err)) ∧
  (∀ space, space ∉ [initialSpace; handshakeSpace; appDataSpace] →
     levelForSpace space = None ∧
     ∀ fuel now off data (c : Conn),
       handleCrypto fuel now space off data c =
       Some (c, Returned (Some errUnexpectedSpace))).
Proof.
  split; [|split; [|split]].
  - intros space Hs.
    repeat (apply elem_of_cons in Hs as [->|Hs]); [| | |by apply elem_of_nil in Hs];
      eexists; split; reflexivity.
  - intros level Hl.
    repeat (apply elem_of_cons in Hl as [->|Hl]); [| | |by apply elem_of_nil in Hl];
      eexists; split; reflexivity.
  - intros level Hl. eexists. by apply spaceForLevel_unknown.
  - intros space Hs.
    assert (levelForSpace space = None) as Hnone.
    { unfold levelForSpace.
      repeat case_decide; subst; try done; exfalso; apply Hs; set_solver. }
    split; [done|]. intros fuel now off data c.
    unfold handleCrypto, handleCryptoData. by rewrite Hnone.
Qed.

End Mapping.

(** ** The drain loop, event by event *)

Section Drain.

Context {T keys transportParameters : Type}.
Context `{!QUICConn T, !KeySchedule keys, !ParamCodec transportParameters}.

Local Abbreviation Conn := (@Conn T keys transportParameters).

Implicit Types (c : Conn) (e : QUICEvent) (now : Time).

Lemma fetch_spec c e c1 :
  fetch c = (e, c1) →
  e = fst (NextEvent (tls c)) ∧ tls c1 = snd (NextEvent (tls c)) ∧
  testHooks c1 = (λ seen, seen ++ [e]) <$> testHooks c ∧
  sameButEngine c c1.
Proof.
  unfold fetch, sameButEngine. destruct (NextEvent (tls c)) as [e' t].
  simpl. destruct (testHooks c) as [seen|] eqn:Hh; intros [= <- <-];
    simpl; rewrite ?Hh; repeat split; reflexivity.
Qed.

Lemma fetch_tls c : tls (snd (fetch c)) = snd (NextEvent (tls c)).
Proof.
  destruct (fetch c) as [e c1] eqn:Hf. by apply fetch_spec in Hf as (_ & ? & _).
Qed.

Lemma fetch_event c : fst (fetch c) = fst (NextEvent (tls c)).
Proof.
  destruct (fetch c) as [e c1] eqn:Hf. by apply fetch_spec in Hf as (? & _).
Qed.

Lemma handleTLSEvents_step fuel now c e c1 :
  fetch c = (e, c1) →
  handleTLSEvents (S fuel) now c =
  match dispatch now e c1 with
  | (c', Continue) => handleTLSEvents fuel now c'
  | (c', Stop o) => Some (c', o)
  end.
Proof.
  intros Hf. simpl. unfold iteration. by rewrite Hf.
Qed.

Lemma handleTLSEvents_passes k n now c ck :
  passes k now c = Some ck →
  handleTLSEvents (k + n) now c = handleTLSEvents n now ck.
Proof.
  revert c. induction k as [|k IH]; intros c; simpl.
  - by intros [= ->].
  - destruct (iteration now c) as [c' [|o]]; [apply IH | done].
Qed.

(** More fuel does not change a result. *)
Lemma handleTLSEvents_mono fuel fuel' now c r :
  handleTLSEvents fuel now c = Some r → (fuel ≤ fuel')%nat →
  handleTLSEvents fuel' now c = Some r.
Proof.
  revert fuel' c. induction fuel as [|fuel IH]; intros fuel' c; [done|].
  intros Hr Hle. destruct fuel' as [|fuel']; [lia|].
  simpl in *. destruct (iteration now c) as [c' [|o]]; [|done].
  apply IH; [done | lia].
Qed.

(** C4. A [QUICSetReadSecret], [QUICSetWriteSecret] or [QUICWriteData]
    event at a level that is not one of the three known levels makes the
    loop return an error in the pass that fetched it, however many passes
    it might still run.  The connection returned is the one the earlier
    [k] passes built, but for the engine having moved past the event and
    the test hook having seen it: no key slot and no stream was written
    for the event, and what the earlier events did is still there. *)
Theorem C4_unknown_level_is_fatal k fuel now c ck e c1 :
  passes k now c = Some ck →
  fetch ck = (e, c1) →
  Kind e ∈ [QUICSetReadSecret; QUICSetWriteSecret; QUICWriteData] →
  Level e ∉ [QUICEncryptionLevelInitial; QUICEncryptionLevelHandshake;
             QUICEncryptionLevelApplication] →
  dispatch now e c1 = (c1, Stop (Returned (Some (errWriteLevel (Level e))))) ∧
  handleTLSEvents (k + S fuel) now c =
    Some (c1, Returned (Some (errWriteLevel (Level e)))) ∧
  rkeys c1 = rkeys ck ∧ wkeys c1 = wkeys ck ∧ crypto c1 = crypto ck ∧
  sameButEngine ck c1.
Proof.
  intros Hk Hf Hkind Hlevel.
  assert (dispatch now e c1 =
          (c1, Stop (Returned (Some (errWriteLevel (Level e)))))) as Hd.
  { unfold dispatch, tlsKey. rewrite (spaceForLevel_unknown _ Hlevel).
    repeat (apply elem_of_cons in Hkind as [->|Hkind]);
      [| | |by apply elem_of_nil in Hkind]; reflexivity. }
  split; [done|]. split.
  - rewrite (handleTLSEvents_passes _ _ _ _ _ Hk).
    by rewrite (handleTLSEvents_step _ _ _ _ _ Hf), Hd.
  - apply fetch_spec in Hf as (_ & _ & _ & Hs).
    pose proof Hs as (_ & _ & ? & ? & ? & _). done.
Qed.

(** C9. On the client side a [QUICHandshakeDone] event changes nothing:
    the [switch] leaves the connection as [fetch] handed it over - the
    confirmation flag, the calls made on the engine (no session ticket is
    asked for, whatever the configuration says), the key slots and the
    streams are those from before the event - and the loop goes on to the
    next event. *)
Theorem C9_client_ignores_handshake_done fuel now c e c1 :
  side c = clientSide →
  fetch c = (e, c1) →
  Kind e = QUICHandshakeDone →
  dispatch now e c1 = (c1, Continue) ∧
  handleTLSEvents (S fuel) now c = handleTLSEvents fuel now c1 ∧
  tls c1 = snd (NextEvent (tls c)) ∧
  handshakeConfirmed c1 = handshakeConfirmed c ∧
  calls c1 = calls c ∧
  rkeys c1 = rkeys c ∧ wkeys c1 = wkeys c ∧ crypto c1 = crypto c ∧
  sameButEngine c c1.
Proof.
  intros Hside Hf Hkind.
  pose proof (fetch_spec _ _ _ Hf) as (_ & Htls & _ & Hs).
  pose proof Hs as (Hside1 & _ & ? & ? & ? & ? & _ & ?).
  assert (dispatch now e c1 = (c1, Continue)) as Hd.
  { unfold dispatch. rewrite Hkind, Hside1, Hside. reflexivity. }
  split; [done|]. split.
  { by rewrite (handleTLSEvents_step _ _ _ _ _ Hf), Hd. }
  split_and!; done.
Qed.

(** C10. An event whose kind is none of the six the [switch] has a case
    for is ignored: the [switch] changes nothing and returns no error, and
    the loop goes on to fetch the next event. *)
Theorem C10_other_kinds_are_ignored fuel now c e c1 :
  fetch c = (e, c1) →
  Kind e ∉ [QUICNoEvent; QUICSetReadSecret; QUICSetWriteSecret; QUICWriteData;
            QUICHandshakeDone; QUICTransportParameters] →
  dispatch now e c1 = (c1, Continue) ∧
  handleTLSEvents (S fuel) now c = handleTLSEvents fuel now c1 ∧
  tls c1 = snd (NextEvent (tls c)) ∧
  sameButEngine c c1.
Proof.
  intros Hf Hkind.
  pose proof (fetch_spec _ _ _ Hf) as (_ & Htls & _ & Hs).
  assert (dispatch now e c1 = (c1, Continue)) as Hd.
  { unfold dispatch.
    repeat case_decide; try done; exfalso; apply Hkind; set_solver. }
  split; [done|]. split; [|done].
  by rewrite (handleTLSEvents_step _ _ _ _ _ Hf), Hd.
Qed.

(** C6. A [QUICTransportParameters] event has its payload parsed by the
    codec.  When the parse succeeds the parsed value is delivered to the
    parameter sink and the loop goes on; when it fails the loop returns
    the codec's error and nothing was delivered to the sink. *)
Theorem C6_transport_parameters fuel now c e c1 :
  fetch c = (e, c1) →
  Kind e = QUICTransportParameters →
  match unmarshalTransportParams (Data e) with
  | (params, None) =>
      dispatch now e c1 = (receiveTransportParameters params c1, Continue) ∧
      peerParams (receiveTransportParameters params c1) =
        peerParams c ++ [params] ∧
      handleTLSEvents (S fuel) now c =
        handleTLSEvents fuel now (receiveTransportParameters params c1)
  | (_, Some err) =>
      dispatch now e c1 = (c1, Stop (Returned (Some err))) ∧
      peerParams c1 = peerParams c ∧
      handleTLSEvents (S fuel) now c = Some (c1, Returned (Some err))
  end.
Proof.
  intros Hf Hkind.
  pose proof (fetch_spec _ _ _ Hf) as (_ & _ & _ & Hs).
  pose proof Hs as (_ & _ & _ & _ & _ & _ & Hp & _).
  rewrite (handleTLSEvents_step _ _ _ _ _ Hf).
  unfold dispatch. rewrite Hkind. simpl.
  destruct (unmarshalTransportParams (Data e)) as [params [err|]];
    simpl; rewrite ?Hp; done.
Qed.

End Drain.

(** ** What one event can and cannot change *)

Section Dispatch.

Context {T keys transportParameters : Type}.
Context `{!QUICConn T, !KeySchedule keys, !ParamCodec transportParameters}.

Local Abbreviation Conn := (@Conn T keys transportParameters).

Implicit Types (c : Conn) (e : QUICEvent) (now : Time).

Lemma tlsKey_in_range {A} e space k (a : perSpace A) :
  tlsKey e = (space, k, None) →
  is_Some (arr_get a space) ∧ ∀ v, is_Some (arr_set a space v).
Proof.
  unfold tlsKey. destruct (spaceForLevel (Level e)) as [sp [err|]] eqn:Hs; [done|].
  destruct (newKeys (Suite e) (Data e)) as [k' [err|]]; [done|].
  intros [= <- <-]. by eapply spaceForLevel_in_range.
Qed.

Lemma tlsKey_level e space k :
  tlsKey e = (space, k, None) → spaceForLevel (Level e) = (space, None).
Proof.
  unfold tlsKey. destruct (spaceForLevel (Level e)) as [sp [err|]] eqn:Hs; [done|].
  destruct (newKeys (Suite e) (Data e)) as [k' [err|]]; [done|].
  by intros [= <- <-].
Qed.

(** The array accesses of the [switch] are within bounds. *)
Lemma dispatch_no_panic now e c : snd (dispatch now e c) ≠ Stop Panicked.
Proof.
  unfold dispatch. repeat case_decide; try done.
  - destruct (tlsKey e) as [[space k] [err|]] eqn:Hk; [done|].
    destruct (tlsKey_in_range e space k (rkeys c) Hk) as [_ Hset].
    by destruct (Hset k) as [a ->].
  - destruct (tlsKey e) as [[space k] [err|]] eqn:Hk; [done|].
    destruct (tlsKey_in_range e space k (wkeys c) Hk) as [_ Hset].
    by destruct (Hset k) as [a ->].
  - destruct (spaceForLevel (Level e)) as [space [err|]] eqn:Hs; [done|].
    destruct (spaceForLevel_in_range _ _ (crypto c) Hs) as [[s ->] Hset].
    by destruct (Hset (cryptoStream_write (Data e) s)) as [a ->].
  - destruct (negb _); [|done].
    destruct (SendSessionTicket _ _) as [t [err|]]; done.
  - destruct (unmarshalTransportParams _) as [p [err|]]; done.
Qed.

(** Between two events the loop calls the engine at most once, for a
    session ticket after a [QUICHandshakeDone]. *)
Lemma dispatch_tls now e c :
  tls (fst (dispatch now e c)) = tls c ∨
  (Kind e = QUICHandshakeDone ∧
   tls (fst (dispatch now e c)) = fst (SendSessionTicket false (tls c))).
Proof.
  unfold dispatch, confirmHandshake, receiveTransportParameters.
  repeat case_decide; try (by left).
  - destruct (tlsKey e) as [[space k] [err|]]; [by left|].
    destruct (arr_set _ _ _); by left.
  - destruct (tlsKey e) as [[space k] [err|]]; [by left|].
    destruct (arr_set _ _ _); by left.
  - destruct (spaceForLevel _) as [space [err|]]; [by left|].
    destruct (arr_get _ _); [|by left]. destruct (arr_set _ _ _); by left.
  - destruct (handshakeConfirmed c); simpl;
      (destruct (SessionTicketsDisabled _); simpl; [by left|]);
      destruct (SendSessionTicket _ _) as [t' [err|]]; by right.
  - destruct (unmarshalTransportParams _) as [p [err|]]; by left.
Qed.

(** The confirmation flag, once set, is not changed by any event. *)
Lemma dispatch_confirmed_stable now e c t :
  handshakeConfirmed c = Some t →
  handshakeConfirmed (fst (dispatch now e c)) = Some t.
Proof.
  intros Hc. unfold dispatch, confirmHandshake, receiveTransportParameters.
  rewrite Hc. repeat case_decide; try done.
  - destruct (tlsKey e) as [[space k] [err|]]; [done|].
    by destruct (arr_set _ _ _).
  - destruct (tlsKey e) as [[space k] [err|]]; [done|].
    by destruct (arr_set _ _ _).
  - destruct (spaceForLevel _) as [space [err|]]; [done|].
    destruct (arr_get _ _); [|done]. by destruct (arr_set _ _ _).
  - destruct (SessionTicketsDisabled _); simpl; [done|].
    by destruct (SendSessionTicket _ _) as [t' [err|]].
  - by destruct (unmarshalTransportParams _) as [p [err|]].
Qed.

Lemma handleTLSEvents_confirmed_stable fuel now c c' o t :
  handshakeConfirmed c = Some t →
  handleTLSEvents fuel now c = Some (c', o) →
  handshakeConfirmed c' = Some t.
Proof.
  revert c. induction fuel as [|fuel IH]; intros c Hc; [done|].
  destruct (fetch c) as [e c1] eqn:Hf.
  rewrite (handleTLSEvents_step _ _ _ _ _ Hf).
  apply fetch_spec in Hf as (_ & _ & _ & Hs).
  destruct Hs as (_ & _ & _ & _ & _ & Hc1 & _). rewrite Hc in Hc1.
  pose proof (dispatch_confirmed_stable now e c1 t Hc1) as Hd.
  destruct (dispatch now e c1) as [c2 [|o2]]; simpl in Hd.
  - by apply IH.
  - by intros [= <- <-].
Qed.

(** An event that is not a secret for the initial space leaves the keys of
    the initial space alone. *)
Lemma dispatch_initial_keys now e c :
  setsInitialSecret e = false →
  arr_get (rkeys (fst (dispatch now e c))) initialSpace
    = arr_get (rkeys c) initialSpace ∧
  arr_get (wkeys (fst (dispatch now e c))) initialSpace
    = arr_get (wkeys c) initialSpace.
Proof.
  intros Hok. unfold dispatch, confirmHandshake, receiveTransportParameters.
  assert (∀ space k, (Kind e = QUICSetReadSecret ∨ Kind e = QUICSetWriteSecret) →
            tlsKey e = (space, k, None) → space ≠ initialSpace) as Hne.
  { intros space k Hkind Hk ->. apply tlsKey_level in Hk.
    apply spaceForLevel_known in Hk as [[Hl _]|[[_ ?]|[_ ?]]]; [|done..].
    unfold setsInitialSecret in Hok.
    rewrite (bool_decide_eq_true_2 _ Hkind), (bool_decide_eq_true_2 _ Hl) in Hok.
    done. }
  repeat case_decide; try done.
  - destruct (tlsKey e) as [[space k] [err|]] eqn:Hk; [done|].
    destruct (arr_set _ _ _) as [a|] eqn:Ha; [|done]. split; [|done].
    apply (arr_get_set_ne _ _ _ initialSpace _ Ha). eapply Hne; eauto.
  - destruct (tlsKey e) as [[space k] [err|]] eqn:Hk; [done|].
    destruct (arr_set _ _ _) as [a|] eqn:Ha; [|done]. split; [done|].
    apply (arr_get_set_ne _ _ _ initialSpace _ Ha). eapply Hne; eauto.
  - destruct (spaceForLevel _) as [space [err|]]; [done|].
    destruct (arr_get (crypto c) space); [|done]. by destruct (arr_set _ _ _).
  - destruct (handshakeConfirmed c); simpl;
      (destruct (SessionTicketsDisabled _); simpl; [done|]);
      by destruct (SendSessionTicket _ _) as [t' [err|]].
  - by destruct (unmarshalTransportParams _) as [p [err|]].
Qed.

Lemma handleTLSEvents_initial_keys n fuel now c c' o :
  eventsWithin (λ e, negb (setsInitialSecret e)) n (tls c) = true →
  handleTLSEvents fuel now c = Some (c', o) →
  arr_get (rkeys c') initialSpace = arr_get (rkeys c) initialSpace ∧
  arr_get (wkeys c') initialSpace = arr_get (wkeys c) initialSpace.
Proof.
  revert n c. induction fuel as [|fuel IH]; intros n c Hn; [done|].
  destruct (fetch c) as [e c1] eqn:Hf.
  rewrite (handleTLSEvents_step _ _ _ _ _ Hf).
  apply fetch_spec in Hf as (He & Ht & _ & Hs).
  destruct Hs as (_ & _ & Hr & Hw & _).
  destruct n as [|n]; simpl in Hn;
    destruct (NextEvent (tls c)) as [e' t'] eqn:Hne; simpl in He, Ht; subst e'.
  - case_decide as Hk; [|done].
    unfold dispatch. rewrite decide_True by done. intros [= <- <-].
    by rewrite Hr, Hw.
  - case_decide as Hk.
    { unfold dispatch. rewrite decide_True by done. intros [= <- <-].
      by rewrite Hr, Hw. }
    apply andb_prop in Hn as [Hn Hticket]. apply andb_prop in Hn as [Hok Hn].
    apply negb_true_iff in Hok.
    pose proof (dispatch_initial_keys now e c1 Hok) as [Hdr Hdw].
    pose proof (dispatch_tls now e c1) as Hdt.
    destruct (dispatch now e c1) as [c2 [|o2]]; simpl in *.
    + intros Hrun. rewrite <- Hr, <- Hw, <- Hdr, <- Hdw.
      apply (IH n); [|done].
      destruct Hdt as [->|[Hdone ->]]; [by rewrite Ht|].
      rewrite decide_True in Hticket by done. by rewrite Ht.
    + intros [= <- <-]. by rewrite Hdr, Hdw, Hr, Hw.
Qed.

End Dispatch.

(** ** Keys and handshake confirmation *)

Section KeysAndConfirmation.

Context {T keys transportParameters : Type}.
Context `{!QUICConn T, !KeySchedule keys, !ParamCodec transportParameters}.

Local Abbreviation Conn := (@Conn T keys transportParameters).

Implicit Types (c : Conn) (e : QUICEvent) (now : Time).

(** C3. On the server side a [QUICHandshakeDone] event sets the
    confirmation flag with the time of the current call when it was not
    set, and leaves a flag that was set as it is; once set, no later event
    and no later run of the loop changes it, so it is set exactly once
    however often the event recurs.  A session ticket is asked of the
    engine exactly when the configuration does not disable tickets; the
    result of that call decides whether the loop goes on. *)
Theorem C3_server_handshake_done now e c :
  side c = serverSide →
  Kind e = QUICHandshakeDone →
  let c' := fst (dispatch now e c) in
  (handshakeConfirmed c = None → handshakeConfirmed c' = Some now) ∧
  (∀ t, handshakeConfirmed c = Some t → handshakeConfirmed c' = Some t) ∧
  (∀ now' e', handshakeConfirmed (fst (dispatch now' e' c'))
              = handshakeConfirmed c') ∧
  (∀ fuel now' c'' o, handleTLSEvents fuel now' c' = Some (c'', o) →
                      handshakeConfirmed c'' = handshakeConfirmed c') ∧
  (calls c' = calls c ++ [CallSendSessionTicket false]
   ↔ SessionTicketsDisabled (TLSConfig (config c)) = false) ∧
  (calls c' = calls c
   ↔ SessionTicketsDisabled (TLSConfig (config c)) = true) ∧
  tls c' = (if SessionTicketsDisabled (TLSConfig (config c)) then tls c
            else fst (SendSessionTicket false (tls c))) ∧
  snd (dispatch now e c) =
    (if SessionTicketsDisabled (TLSConfig (config c)) then Continue
     else match snd (SendSessionTicket false (tls c)) with
          | Some err => Stop (Returned (Some err))
          | None => Continue
          end).
Proof.
  intros Hside Hkind c'.
  assert (∃ t, handshakeConfirmed c' = Some t ∧
               t = default now (handshakeConfirmed c)) as (t & Ht & Hdef).
  { subst c'. unfold dispatch, confirmHandshake. rewrite Hkind, Hside. simpl.
    destruct (handshakeConfirmed c) as [t0|] eqn:Hc; simpl;
      (destruct (SessionTicketsDisabled _); simpl;
       [|destruct (SendSessionTicket _ _) as [t' [err|]]; simpl]);
      rewrite ?Hc; eauto. }
  assert (l_neq : ∀ (l : list engineCall) x, l ++ [x] ≠ l).
  { intros l x Hl. apply (f_equal length) in Hl.
    rewrite length_app in Hl. simpl in Hl. lia. }
  split_and!.
  - intros Hc. rewrite Ht, Hdef, Hc. done.
  - intros t0 Hc. rewrite Ht, Hdef, Hc. done.
  - intros now' e'. rewrite Ht. by apply dispatch_confirmed_stable.
  - intros fuel now' c'' o Hrun. rewrite Ht.
    by eapply handleTLSEvents_confirmed_stable.
  - subst c'. unfold dispatch, confirmHandshake. rewrite Hkind, Hside. simpl.
    destruct (handshakeConfirmed c); simpl;
      (destruct (SessionTicketsDisabled _); simpl;
       [|destruct (SendSessionTicket _ _) as [t' [err|]]; simpl]);
      split; try done; intros Hl; symmetry in Hl; by apply l_neq in Hl.
  - subst c'. unfold dispatch, confirmHandshake. rewrite Hkind, Hside. simpl.
    destruct (handshakeConfirmed c); simpl;
      (destruct (SessionTicketsDisabled _); simpl;
       [|destruct (SendSessionTicket _ _) as [t' [err|]]; simpl]);
      split; try done; intros Hl; by apply l_neq in Hl.
  - subst c'. unfold dispatch, confirmHandshake. rewrite Hkind, Hside. simpl.
    destruct (handshakeConfirmed c); simpl;
      (destruct (SessionTicketsDisabled _); simpl;
       [|destruct (SendSessionTicket _ _) as [t' [err|]]; simpl]); done.
  - unfold dispatch, confirmHandshake. rewrite Hkind, Hside. simpl.
    destruct (handshakeConfirmed c); simpl;
      (destruct (SessionTicketsDisabled _); simpl;
       [|destruct (SendSessionTicket _ _) as [t' [err|]]; simpl]); done.
Qed.

(** C1, as the code has it.  A [QUICSetReadSecret] or [QUICSetWriteSecret]
    event whose level is known and whose keys derive is never refused:
    the derived keys are stored in the slot of that space and direction
    whatever the slot held, the other slots keep their keys, and the loop
    goes on.  The event is an error only when [tlsKey] fails (unknown
    level, or no keys for the suite), and then no slot changes. *)
Theorem C1_secret_event_stores_keys now e c :
  Kind e ∈ [QUICSetReadSecret; QUICSetWriteSecret] →
  match tlsKey e with
  | (space, k, None) =>
      ∃ c', dispatch now e c = (c', Continue) ∧
        (Kind e = QUICSetReadSecret →
           arr_get (rkeys c') space = Some k ∧ wkeys c' = wkeys c ∧
           ∀ j, j ≠ space → arr_get (rkeys c') j = arr_get (rkeys c) j) ∧
        (Kind e = QUICSetWriteSecret →
           arr_get (wkeys c') space = Some k ∧ rkeys c' = rkeys c ∧
           ∀ j, j ≠ space → arr_get (wkeys c') j = arr_get (wkeys c) j)
  | (_, _, Some err) => dispatch now e c = (c, Stop (Returned (Some err)))
  end.
Proof.
  intros Hkind. unfold dispatch.
  destruct (tlsKey e) as [[space k] [err|]] eqn:Hk.
  - repeat (apply elem_of_cons in Hkind as [->|Hkind]);
      [| |by apply elem_of_nil in Hkind]; reflexivity.
  - repeat (apply elem_of_cons in Hkind as [Hkind|Hkind]);
      [| |by apply elem_of_nil in Hkind]; rewrite Hkind; simpl.
    + destruct (tlsKey_in_range e space k (rkeys c) Hk) as [_ Hset].
      destruct (Hset k) as [a Ha]. rewrite Ha.
      eexists; split; [done|]. split; [|done]. intros _.
      split_and!; [by eapply arr_get_set | done |].
      intros j Hj. by eapply arr_get_set_ne.
    + destruct (tlsKey_in_range e space k (wkeys c) Hk) as [_ Hset].
      destruct (Hset k) as [a Ha]. rewrite Ha.
      eexists; split; [done|]. split; [done|]. intros _.
      split_and!; [by eapply arr_get_set | done |].
      intros j Hj. by eapply arr_get_set_ne.
Qed.

(** C2. For every initial connection ID, the keys [startTLS] installs for
    the initial space mirror each other across the two sides: the
    client's write keys are the server's read keys and the client's read
    keys are the server's write keys.  This holds right after the keys
    are installed, and of the connections [startTLS] returns whenever the
    two engines, up to the point where they have no event left, yield no
    secret for the initial space. *)
Theorem C2_initial_keys_symmetric initialConnID (cc cs : Conn) :
  side cc = clientSide →
  side cs = serverSide →
  let mirrored (cc' cs' : Conn) :=
    arr_get (wkeys cc') initialSpace = arr_get (rkeys cs') initialSpace ∧
    arr_get (rkeys cc') initialSpace = arr_get (wkeys cs') initialSpace ∧
    arr_get (wkeys cc') initialSpace = Some (fst (initialKeys initialConnID)) ∧
    arr_get (rkeys cc') initialSpace = Some (snd (initialKeys initialConnID)) in
  mirrored (installInitialKeys initialConnID cc)
           (installInitialKeys initialConnID cs) ∧
  ∀ n fuel now pc ps cc' cs' oc os,
    let started p (c : Conn) :=
      fst (Start (tls (newEngine p (installInitialKeys initialConnID c)))) in
    eventsWithin (λ e, negb (setsInitialSecret e)) n (started pc cc) = true →
    eventsWithin (λ e, negb (setsInitialSecret e)) n (started ps cs) = true →
    startTLS fuel now initialConnID pc cc = Some (cc', oc) →
    startTLS fuel now initialConnID ps cs = Some (cs', os) →
    mirrored cc' cs'.
Proof.
  intros Hc Hs mirrored.
  assert (mirrored (installInitialKeys initialConnID cc)
                   (installInitialKeys initialConnID cs)) as Hm.
  { unfold mirrored, installInitialKeys. rewrite Hc, Hs.
    destruct (initialKeys initialConnID) as [ck sk]. done. }
  split; [done|].
  intros n fuel now pc ps cc' cs' oc os started Hnc Hns Hrc Hrs.
  assert (∀ p (c c' : Conn) o,
            eventsWithin (λ e, negb (setsInitialSecret e)) n (started p c) = true →
            startTLS fuel now initialConnID p c = Some (c', o) →
            arr_get (rkeys c') initialSpace
              = arr_get (rkeys (installInitialKeys initialConnID c)) initialSpace ∧
            arr_get (wkeys c') initialSpace
              = arr_get (wkeys (installInitialKeys initialConnID c)) initialSpace)
    as Hkeep.
  { intros p c c' o Hn. unfold startTLS. subst started. simpl in Hn.
    destruct (Start _) as [t [err|]] eqn:Hst; simpl in Hn.
    - by intros [= <- <-].
    - intros Hrun.
      by apply (handleTLSEvents_initial_keys n) in Hrun as [-> ->]. }
  destruct (Hkeep _ _ _ _ Hnc Hrc) as [Hcr Hcw].
  destruct (Hkeep _ _ _ _ Hns Hrs) as [Hsr Hsw].
  unfold mirrored in *. rewrite Hcr, Hcw, Hsr, Hsw. done.
Qed.

End KeysAndConfirmation.

(** ** Termination of the drain loop *)

Section Termination.

Context {T keys transportParameters : Type}.
Context `{!QUICConn T, !KeySchedule keys, !ParamCodec transportParameters}.

Local Abbreviation Conn := (@Conn T keys transportParameters).

Implicit Types (c : Conn) (e : QUICEvent) (now : Time).

(** The [switch] returns [nil] for [QUICNoEvent] and for nothing else. *)
Lemma dispatch_returns_nil now e c :
  snd (dispatch now e c) = Stop (Returned None) ↔ Kind e = QUICNoEvent.
Proof.
  unfold dispatch. split.
  - repeat case_decide; try done.
    + destruct (tlsKey e) as [[space k] [err|]]; [done|].
      by destruct (arr_set _ _ _).
    + destruct (tlsKey e) as [[space k] [err|]]; [done|].
      by destruct (arr_set _ _ _).
    + destruct (spaceForLevel _) as [space [err|]]; [done|].
      destruct (arr_get _ _); [|done]. by destruct (arr_set _ _ _).
    + destruct (negb _); [|done].
      by destruct (SendSessionTicket _ _) as [t' [err|]].
    + by destruct (unmarshalTransportParams _) as [p [err|]].
  - intros ->. done.
Qed.

Lemma dispatch_no_event now e c :
  Kind e = QUICNoEvent → dispatch now e c = (c, Stop (Returned None)).
Proof. intros Hk. unfold dispatch. by rewrite decide_True. Qed.

Lemma drain_quiesces n now c :
  quiescesWithin n (tls c) = true →
  ∃ c' o, drainsTo n now c c' o ∧ handleTLSEvents (S n) now c = Some (c', o).
Proof.
  unfold quiescesWithin.
  assert (∀ c c' o, dispatch now (fst (fetch c)) (snd (fetch c)) = (c', Stop o) →
            drainsTo 0 now c c' o ∧ ∀ m, handleTLSEvents (S m) now c = Some (c', o))
    as Hstop.
  { intros c0 c' o Hd. split.
    - exists O, c0. split; [lia|]. split; [done|].
      pose proof (dispatch_no_panic now (fst (fetch c0)) (snd (fetch c0))) as Hnp.
      pose proof (dispatch_returns_nil now (fst (fetch c0)) (snd (fetch c0))) as Hnil.
      rewrite Hd in Hnp, Hnil. simpl in Hnp, Hnil. split_and!.
      + unfold iteration. by destruct (fetch c0).
      + congruence.
      + rewrite <- Hnil. split; congruence.
      + intros err. rewrite Hd. simpl. split.
        * intros ->. split; [|done]. rewrite <- Hnil. congruence.
        * intros [_ ?]. congruence.
    - intros m. destruct (fetch c0) as [e c1] eqn:Hf. simpl in Hd.
      by rewrite (handleTLSEvents_step _ _ _ _ _ Hf), Hd. }
  assert (∀ n c c' o, drainsTo 0 now c c' o → drainsTo n now c c' o) as Hweak.
  { intros m c0 c' o (k & ck & Hk & H). exists k, ck. split; [lia|done]. }
  revert c. induction n as [|n IH]; intros c Hq.
  - simpl in Hq. destruct (NextEvent (tls c)) as [e t'] eqn:Hne.
    case_decide as Hk; [|done].
    pose proof (fetch_event c) as He. rewrite Hne in He. simpl in He.
    rewrite <- He in Hk.
    destruct (Hstop c _ _ (dispatch_no_event now _ (snd (fetch c)) Hk)) as [? ?].
    eauto.
  - simpl in Hq. destruct (NextEvent (tls c)) as [e t'] eqn:Hne.
    pose proof (fetch_event c) as He. rewrite Hne in He. simpl in He.
    pose proof (fetch_tls c) as Ht. rewrite Hne in Ht. simpl in Ht.
    destruct (dispatch now (fst (fetch c)) (snd (fetch c))) as [c2 [|o]] eqn:Hd.
    + case_decide as Hk.
      { rewrite <- He in Hk.
        rewrite (dispatch_no_event now _ (snd (fetch c)) Hk) in Hd. done. }
      apply andb_prop in Hq as [Hq Hticket]. simpl in Hq.
      assert (eventsWithin (λ _, true) n (tls c2) = true) as Hq2.
      { pose proof (dispatch_tls now (fst (fetch c)) (snd (fetch c))) as Hdt.
        rewrite Hd in Hdt. simpl in Hdt. rewrite Ht, He in Hdt.
        destruct Hdt as [->|[Hdone ->]]; [done|].
        by rewrite decide_True in Hticket. }
      destruct (IH c2 Hq2) as (c' & o & (k & ck & Hk' & Hp & Hrest) & Hrun).
      exists c', o. split.
      * exists (S k), ck. split; [lia|]. split; [|done].
        simpl. unfold iteration. destruct (fetch c) as [e0 c1]. simpl in Hd.
        by rewrite Hd.
      * destruct (fetch c) as [e0 c1] eqn:Hf. simpl in Hd.
        by rewrite (handleTLSEvents_step _ _ _ _ _ Hf), Hd.
    + destruct (Hstop c _ _ Hd) as [? ?]. eauto.
Qed.

(** C8. When the engine yields [QUICNoEvent] after at most [n] other
    events, the loop returns: given more than [n] passes it gives a result,
    after at most [n] passes that went round.  That holds of the loop
    called on its own and of the loop [handleCrypto] enters once the
    stream has taken the frame.  The result is [nil] exactly when the loop
    reached [QUICNoEvent], and an error exactly when the [switch] returned
    that error for an event (see [drainsTo]). *)
Theorem C8_drain_terminates n now c :
  (quiescesWithin n (tls c) = true →
   ∃ c' o, drainsTo n now c c' o ∧
     ∀ fuel, (n < fuel)%nat → handleTLSEvents fuel now c = Some (c', o)) ∧
  (∀ space off data c1,
     handleCryptoData space off data c = (c1, Continue) →
     quiescesWithin n (tls c1) = true →
     ∃ c' o, drainsTo n now c1 c' o ∧
       ∀ fuel, (n < fuel)%nat →
         handleCrypto fuel now space off data c = Some (c', o)).
Proof.
  split.
  - intros Hq. destruct (drain_quiesces n now c Hq) as (c' & o & Hd & Hrun).
    exists c', o. split; [done|]. intros fuel Hfuel.
    eapply handleTLSEvents_mono; [done | lia].
  - intros space off data c1 Hdata Hq.
    destruct (drain_quiesces n now c1 Hq) as (c' & o & Hd & Hrun).
    exists c', o. split; [done|]. intros fuel Hfuel.
    unfold handleCrypto. rewrite Hdata.
    eapply handleTLSEvents_mono; [done | lia].
Qed.

End Termination.

(** ** The inbound side of the handshake byte stream *)

Section Stream.

Implicit Types (m : gmap Z byte) (D : Z → byte) (o off : Z) (b : bytes).








End Stream.

(** ** Inbound CRYPTO data, from the frames to the engine *)

Section Inbound.

Context {T keys transportParameters : Type}.
Context `{!QUICConn T, !KeySchedule keys, !ParamCodec transportParameters}.

Local Abbreviation Conn := (@Conn T keys transportParameters).

Implicit Types (c : Conn) (e : QUICEvent) (now : Time) (D : Z → byte).

Lemma fedAt_app level l1 l2 :
  fedAt level (l1 ++ l2) = fedAt level l1 ++ fedAt level l2.
Proof. unfold fedAt. apply omap_app. Qed.

(** The [switch] reads and writes no inbound buffer and hands the engine
    no bytes. *)
Lemma dispatch_inbound now e c level :
  fedAt level (calls (fst (dispatch now e c))) = fedAt level (calls c) ∧
  ∀ space s, arr_get (crypto c) space = Some s →
    ∃ s', arr_get (crypto (fst (dispatch now e c))) space = Some s' ∧
          inbuf s' = inbuf s ∧ incursor s' = incursor s.
Proof.
  unfold dispatch, confirmHandshake, receiveTransportParameters.
  repeat case_decide; try (split; [done | by eauto]).
  - destruct (tlsKey e) as [[sp k] [err|]]; [split; [done | by eauto]|].
    destruct (arr_set (rkeys c) sp k); split; try done; by eauto.
  - destruct (tlsKey e) as [[sp k] [err|]]; [split; [done | by eauto]|].
    destruct (arr_set (wkeys c) sp k); split; try done; by eauto.
  - destruct (spaceForLevel _) as [sp [err|]]; [split; [done | by eauto]|].
    destruct (arr_get (crypto c) sp) as [s0|] eqn:Hget;
      [|split; [done | by eauto]].
    destruct (arr_set (crypto c) sp _) as [a|] eqn:Hset;
      [|split; [done | by eauto]].
    split; [done|]. intros space s Hs. simpl.
    destruct (decide (sp = space)) as [->|Hne].
    + rewrite (arr_get_set _ _ _ _ Hset). eexists. split; [done|].
      rewrite Hs in Hget. by injection Hget as ->.
    + rewrite (arr_get_set_ne _ _ _ _ _ Hset Hne). eauto.
  - destruct (handshakeConfirmed c); simpl;
      (destruct (SessionTicketsDisabled _); simpl; [split; [done | by eauto]|]);
      destruct (SendSessionTicket _ _) as [t' [err|]]; simpl;
      (split; [|by eauto]); rewrite fedAt_app; simpl; by rewrite app_nil_r.
  - destruct (unmarshalTransportParams _) as [p [err|]];
      split; try done; by eauto.
Qed.

Lemma handleTLSEvents_inbound fuel now c c' o level space s :
  handleTLSEvents fuel now c = Some (c', o) →
  arr_get (crypto c) space = Some s →
  fedAt level (calls c') = fedAt level (calls c) ∧
  ∃ s', arr_get (crypto c') space = Some s' ∧
        inbuf s' = inbuf s ∧ incursor s' = incursor s.
Proof.
  revert c s. induction fuel as [|fuel IH]; intros c s; [done|].
  destruct (fetch c) as [e c1] eqn:Hf.
  rewrite (handleTLSEvents_step _ _ _ _ _ Hf).
  apply fetch_spec in Hf as (_ & _ & _ & Hs).
  destruct Hs as (_ & _ & _ & _ & Hcr & _ & _ & Hcalls).
  pose proof (dispatch_inbound now e c1 level) as [Hfed Hin].
  destruct (dispatch now e c1) as [c2 [|o2]]; simpl in Hfed, Hin.
  - intros Hrun Hget. rewrite <- Hcr in Hget.
    destruct (Hin _ _ Hget) as (s2 & Hget2 & Hbuf & Hcur).
    destruct (IH _ _ Hrun Hget2) as (Hfed' & s' & Hget' & Hbuf' & Hcur').
    split; [congruence|]. exists s'. split; [done|]. split; congruence.
  - intros [= <- <-] Hget. rewrite <- Hcr in Hget.
    destruct (Hin _ _ Hget) as (s2 & Hget2 & Hbuf & Hcur).
    split; [congruence|]. eauto.
Qed.







End Inbound.

Section InboundOrder.

Context {T keys transportParameters : Type}.
Context `{!QUICConn T, !KeySchedule keys, !ParamCodec transportParameters}.

Local Abbreviation Conn := (@Conn T keys transportParameters).


End InboundOrder.

(** * Concrete runs

    The coordinator run on the scripted engine of [Fake]: the theorems
    above at concrete connections, and the scenarios the specification
    lists. *)

Ltac in_list :=
  repeat first [apply list_elem_of_here | apply list_elem_of_further].

Ltac not_in_list :=
  let H := fresh in
  intros H;
  repeat (apply elem_of_cons in H as [H|H]; [vm_compute in H; discriminate H|]);
  by apply elem_of_nil in H.

(** Two read secrets for the handshake space, one after the other: the
    second replaces the first and the loop returns [nil]. *)
Lemma C1_second_secret_replaces_first :
  let e1 := mkEvent QUICSetReadSecret QUICEncryptionLevelHandshake ["a"%byte] 0x1301 in
  let e2 := mkEvent QUICSetReadSecret QUICEncryptionLevelHandshake ["b"%byte] 0x1301 in
  let c := Fake.conn serverSide true [e1; e2] in
  (passes 1 0 c ≫= λ c1, arr_get (rkeys c1) handshakeSpace)
    = Some (Fake.derived 0x1301 ["a"%byte]) ∧
  (snd <$> handleTLSEvents 3 0 c) = Some (Returned None) ∧
  (handleTLSEvents 3 0 c ≫= λ r, arr_get (rkeys (fst r)) handshakeSpace)
    = Some (Fake.derived 0x1301 ["b"%byte]).
Proof. by vm_compute. Qed.

Lemma C1_witness :
  let e := mkEvent QUICSetWriteSecret QUICEncryptionLevelApplication ["b"%byte] 0x1302 in
  let c := Fake.conn clientSide false [] in
  ∃ c', dispatch 0 e (set_wkeys (PerSpace Fake.unset Fake.unset
                                   (Fake.derived 0x1301 ["a"%byte])) c)
        = (c', Continue) ∧
        arr_get (wkeys c') appDataSpace = Some (Fake.derived 0x1302 ["b"%byte]).
Proof.
  intros e c.
  destruct (C1_secret_event_stores_keys 0 e
              (set_wkeys (PerSpace Fake.unset Fake.unset
                            (Fake.derived 0x1301 ["a"%byte])) c))
    as (c' & Hd & _ & Hw); [in_list|].
  exists c'. split; [exact Hd|]. apply Hw. reflexivity.
Defined.

Lemma C2_witness :
  let cc := Fake.conn clientSide false [] in
  let cs := Fake.conn serverSide false [] in
  match startTLS 5 0 ["i"%byte] [] cc, startTLS 5 0 ["i"%byte] [] cs with
  | Some (cc', _), Some (cs', _) =>
      arr_get (wkeys cc') initialSpace = arr_get (rkeys cs') initialSpace ∧
      arr_get (rkeys cc') initialSpace = arr_get (wkeys cs') initialSpace
  | _, _ => False
  end.
Proof.
  intros cc cs.
  destruct (startTLS 5 0 ["i"%byte] [] cc) as [[cc' oc]|] eqn:Hc;
    [|vm_compute in Hc; discriminate Hc].
  destruct (startTLS 5 0 ["i"%byte] [] cs) as [[cs' os]|] eqn:Hs;
    [|vm_compute in Hs; discriminate Hs].
  destruct (C2_initial_keys_symmetric ["i"%byte] cc cs eq_refl eq_refl)
    as [_ Hrun].
  destruct (Hrun 1%nat 5%nat 0 [] [] cc' cs' oc os eq_refl eq_refl Hc Hs)
    as (H1 & H2 & _).
  split; [exact H1 | exact H2].
Defined.

Lemma C3_witness :
  let e := mkEvent QUICHandshakeDone 0 [] 0 in
  let c := Fake.conn serverSide false [] in
  handshakeConfirmed (fst (dispatch 42 e c)) = Some 42 ∧
  calls (fst (dispatch 42 e c)) = [CallSendSessionTicket false] ∧
  handshakeConfirmed (fst (dispatch 43 e (fst (dispatch 42 e c)))) = Some 42.
Proof.
  intros e c.
  destruct (C3_server_handshake_done 42 e c eq_refl eq_refl)
    as (Hset & _ & Hkeep & _ & Hticket & _).
  split; [apply Hset; reflexivity|]. split; [apply Hticket; reflexivity|].
  rewrite (Hkeep 43 e). apply Hset. reflexivity.
Defined.

Lemma C4_witness :
  let c := Fake.conn clientSide false
             [mkEvent QUICWriteData QUICEncryptionLevelInitial ["a"%byte] 0;
              mkEvent QUICSetReadSecret QUICEncryptionLevelEarly ["k"%byte] 0x1301;
              mkEvent QUICWriteData QUICEncryptionLevelInitial ["z"%byte] 0] in
  (snd <$> handleTLSEvents 4 0 c)
    = Some (Returned (Some (errWriteLevel QUICEncryptionLevelEarly))) ∧
  (handleTLSEvents 4 0 c ≫= λ r, outbuf <$> arr_get (crypto (fst r)) initialSpace)
    = Some ["a"%byte].
Proof.
  intros c.
  set (ck := default c (passes 1 0 c)).
  destruct (C4_unknown_level_is_fatal 1 2 0 c ck (fst (fetch ck)) (snd (fetch ck)))
    as (_ & Hrun & _); [reflexivity | reflexivity | in_list | not_in_list |].
  change (1 + 3)%nat with 4%nat in Hrun. rewrite Hrun.
  split; reflexivity.
Defined.

Lemma C5_witness :
  (∃ level, levelForSpace handshakeSpace = Some level ∧
            spaceForLevel level = (handshakeSpace, None)) ∧
  (∃ space, spaceForLevel QUICEncryptionLevelApplication = (space, None) ∧
            levelForSpace space = Some QUICEncryptionLevelApplication) ∧
  (∃ err, spaceForLevel QUICEncryptionLevelEarly = (0, Some err)) ∧
  handleCrypto 3 0 numberSpaceCount 0 ["x"%byte] (Fake.conn serverSide false [])
    = Some (Fake.conn serverSide false [], Returned (Some errUnexpectedSpace)).
Proof.
  destruct (@C5_space_level_bijection Fake.engine Fake.keys bytes _ _ _)
    as (Hspace & Hlevel & Hbad & Hout).
  split; [apply Hspace; in_list|]. split; [apply Hlevel; in_list|].
  split; [apply Hbad; not_in_list|].
  apply (Hout numberSpaceCount); not_in_list.
Defined.

Lemma C6_witness :
  let good := Fake.conn clientSide false [mkEvent QUICTransportParameters 0 ["p"%byte] 0] in
  let bad := Fake.conn clientSide false [mkEvent QUICTransportParameters 0 [] 0] in
  peerParams (receiveTransportParameters ["p"%byte] (snd (fetch good)))
    = [["p"%byte]] ∧
  handleTLSEvents 2 0 bad = Some (snd (fetch bad), Returned (Some (errOther 2))) ∧
  peerParams (snd (fetch bad)) = [].
Proof.
  intros good bad.
  pose proof (C6_transport_parameters 1 0 good (fst (fetch good)) (snd (fetch good))
                eq_refl eq_refl) as (_ & Hgood & _).
  pose proof (C6_transport_parameters 1 0 bad (fst (fetch bad)) (snd (fetch bad))
                eq_refl eq_refl) as (_ & Hsink & Hbad).
  split; [exact Hgood|]. split; [exact Hbad | exact Hsink].
Defined.


Lemma C8_witness :
  let c := Fake.conn serverSide false
             [mkEvent QUICWriteData QUICEncryptionLevelHandshake ["a"%byte] 0;
              mkEvent QUICHandshakeDone 0 [] 0] in
  let cc := set_tls Fake.clientScript (Fake.conn clientSide false []) in
  (∃ c' o, drainsTo 3 0 c c' o ∧
     ∀ fuel, (3 < fuel)%nat → handleTLSEvents fuel 0 c = Some (c', o)) ∧
  (∃ c' o, drainsTo 5 0 (fst (handleCryptoData initialSpace 0 ["s"%byte] cc)) c' o ∧
     ∀ fuel, (5 < fuel)%nat →
       handleCrypto fuel 0 initialSpace 0 ["s"%byte] cc = Some (c', o)).
Proof.
  intros c cc. split.
  - apply (proj1 (C8_drain_terminates 3 0 c)). reflexivity.
  - apply (proj2 (C8_drain_terminates 5 0 cc)); reflexivity.
Defined.

Lemma C9_witness :
  let c := Fake.conn clientSide false [mkEvent QUICHandshakeDone 0 [] 0] in
  handleTLSEvents 2 0 c = handleTLSEvents 1 0 (snd (fetch c)) ∧
  handshakeConfirmed (snd (fetch c)) = None ∧
  calls (snd (fetch c)) = [].
Proof.
  intros c.
  destruct (C9_client_ignores_handshake_done 1 0 c (fst (fetch c)) (snd (fetch c)))
    as (_ & Hrun & _ & Hflag & Hcalls & _); [reflexivity..|].
  split; [exact Hrun|]. split; [exact Hflag | exact Hcalls].
Defined.

Lemma C10_witness :
  let c := Fake.conn serverSide false
             [mkEvent QUICRejectedEarlyData 0 [] 0;
              mkEvent QUICTransportParametersRequired 0 [] 0] in
  dispatch 0 (fst (fetch c)) (snd (fetch c)) = (snd (fetch c), Continue) ∧
  handleTLSEvents 3 0 c = handleTLSEvents 2 0 (snd (fetch c)).
Proof.
  intros c.
  destruct (C10_other_kinds_are_ignored 2 0 c (fst (fetch c)) (snd (fetch c)))
    as (Hd & Hrun & _); [reflexivity | not_in_list |].
  split; [exact Hd | exact Hrun].
Defined.

(** ** The scenarios of the specification *)

(** Server, tickets enabled; the engine yields a write secret and data for
    the handshake space, both secrets for the application space, and
    [QUICHandshakeDone]: the keys are in their slots, the data is in the
    handshake space's outbound buffer, the handshake is confirmed at the
    time of the call, one session ticket was asked for, and the loop
    returns [nil]. *)
Example scenario_server_handshake :
  let c := Fake.conn serverSide false
    [mkEvent QUICSetWriteSecret QUICEncryptionLevelHandshake ["h"%byte] 0x1301;
     mkEvent QUICWriteData QUICEncryptionLevelHandshake ["b"%byte; "1"%byte] 0;
     mkEvent QUICSetReadSecret QUICEncryptionLevelApplication ["r"%byte] 0x1301;
     mkEvent QUICSetWriteSecret QUICEncryptionLevelApplication ["w"%byte] 0x1301;
     mkEvent QUICHandshakeDone 0 [] 0] in
  (handleTLSEvents 8 42 c ≫= λ r,
     let c' := fst r in
     Some (snd r, wkeys c', rkeys c',
           outbuf <$> arr_get (crypto c') handshakeSpace,
           handshakeConfirmed c', calls c'))
  = Some (Returned None,
          PerSpace Fake.unset (Fake.derived 0x1301 ["h"%byte])
                   (Fake.derived 0x1301 ["w"%byte]),
          PerSpace Fake.unset Fake.unset (Fake.derived 0x1301 ["r"%byte]),
          Some ["b"%byte; "1"%byte], Some 42, [CallSendSessionTicket false]).
Proof. reflexivity. Qed.

(** Bytes 0 to 9 arrive, then bytes 5 to 14 with the same content where
    they overlap: the engine gets bytes 0 to 9 once, then bytes 10 to 14. *)
Example scenario_overlapping_frames :
  let c := Fake.conn clientSide false [] in
  (deliverAll 3 0 initialSpace
     [(0, slice Fake.text 0 10); (5, slice Fake.text 5 10)] c ≫= λ r,
     Some (snd r, calls (fst r)))
  = Some (Returned None,
          [CallHandleData QUICEncryptionLevelInitial (slice Fake.text 0 10);
           CallHandleData QUICEncryptionLevelInitial (slice Fake.text 10 5)]).
Proof. reflexivity. Qed.

(** The same second frame with one byte changed in the overlap is a
    protocol error, and the engine is handed nothing more. *)
Example scenario_conflicting_frames :
  let c := Fake.conn clientSide false [] in
  (deliverAll 3 0 initialSpace
     [(0, slice Fake.text 0 10); (5, "!"%byte :: slice Fake.text 6 9)] c ≫= λ r,
     Some (snd r, calls (fst r)))
  = Some (Returned (Some errConflict),
          [CallHandleData QUICEncryptionLevelInitial (slice Fake.text 0 10)]).
Proof. reflexivity. Qed.

(** * Further properties of the coordinator *)

(** ** What each event does to each part of the connection *)

Section Effects.

Context {T keys transportParameters : Type}.
Context `{!QUICConn T, !KeySchedule keys, !ParamCodec transportParameters}.

Local Abbreviation Conn := (@Conn T keys transportParameters).

Implicit Types (c : Conn) (e : QUICEvent) (now : Time).

(** All the ways through the [switch]. *)
Ltac through_switch :=
  unfold dispatch, confirmHandshake, receiveTransportParameters;
  repeat case_decide; repeat case_match; simplify_eq/=.

(** No event changes the side, the configuration or the test hook. *)
Lemma dispatch_role now e c :
  side (fst (dispatch now e c)) = side c ∧
  config (fst (dispatch now e c)) = config c ∧
  testHooks (fst (dispatch now e c)) = testHooks c.
Proof. through_switch; done. Qed.



Lemma dispatch_crypto_at now e c space :
  arr_get (crypto (fst (dispatch now e c))) space =
  match writtenTo space e with
  | Some b => cryptoStream_write b <$> arr_get (crypto c) space
  | None => arr_get (crypto c) space
  end.
Proof.
  unfold writtenTo. destruct (decide (Kind e = QUICWriteData)) as [Hk|Hk].
  - unfold dispatch. rewrite Hk. simpl.
    destruct (spaceForLevel (Level e)) as [sp [err|]] eqn:Hsp; [done|].
    destruct (spaceForLevel_in_range _ _ (crypto c) Hsp) as [[s Hs] Hset].
    rewrite Hs. destruct (Hset (cryptoStream_write (Data e) s)) as [a Ha].
    rewrite Ha. simpl. case_decide as Heq.
    + subst. rewrite Hs. by eapply arr_get_set.
    + by eapply arr_get_set_ne.
  - through_switch; done.
Qed.

Lemma dispatch_peerParams now e c :
  peerParams (fst (dispatch now e c)) =
  peerParams c ++ option_list (parsedParams e).
Proof.
  unfold parsedParams.
  destruct (decide (Kind e = QUICTransportParameters)) as [Hk|Hk].
  - unfold dispatch, receiveTransportParameters. rewrite Hk. simpl.
    destruct (unmarshalTransportParams (Data e)) as [p [err|]]; simpl;
      by rewrite ?app_nil_r.
  - through_switch; by rewrite app_nil_r.
Qed.

Lemma dispatch_calls now e c :
  calls (fst (dispatch now e c)) =
    calls c ++ (if asksTicket c e then [CallSendSessionTicket false] else []) ∧
  tls (fst (dispatch now e c)) =
    (if asksTicket c e then fst (SendSessionTicket false (tls c)) else tls c).
Proof.
  unfold asksTicket.
  destruct (decide (Kind e = QUICHandshakeDone)) as [Hk|Hk].
  - rewrite (bool_decide_eq_true_2 _ Hk).
    unfold dispatch, confirmHandshake. rewrite Hk. simpl.
    destruct (decide (side c = serverSide)) as [Hs|Hs].
    + rewrite (bool_decide_eq_true_2 _ Hs). simpl.
      destruct (handshakeConfirmed c); simpl;
        (destruct (SessionTicketsDisabled _); simpl;
         [by rewrite app_nil_r|]);
        by destruct (SendSessionTicket false (tls c)) as [t' [err|]].
    + rewrite (bool_decide_eq_false_2 _ Hs). simpl. by rewrite app_nil_r.
  - rewrite (bool_decide_eq_false_2 _ Hk). simpl.
    through_switch; by rewrite ?app_nil_r.
Qed.

(** Only the server side confirms the handshake in the [switch]. *)
Lemma dispatch_confirmed_client now e c :
  side c = clientSide →
  handshakeConfirmed (fst (dispatch now e c)) = handshakeConfirmed c.
Proof. intros Hs. through_switch; congruence. Qed.


End Effects.

(** ** What a whole run of the loop does, in terms of the events it fetched *)

Section WholeRuns.

Context {T keys transportParameters : Type}.
Context `{!QUICConn T, !KeySchedule keys, !ParamCodec transportParameters}.

Local Abbreviation Conn := (@Conn T keys transportParameters).

Implicit Types (c : Conn) (e : QUICEvent) (now : Time).

(** A relation between a connection, events and the connection after them
    holds of a run of the loop and the events it fetched when it holds of
    every single pass and composes. *)
Lemma handleTLSEvents_trace (R : Conn → list QUICEvent → Conn → Prop) now :
  (∀ c e c1, fetch c = (e, c1) → R c [e] (fst (dispatch now e c1))) →
  (∀ c e c' evs c'', R c [e] c' → R c' evs c'' → R c (e :: evs) c'') →
  ∀ fuel c c' o,
    handleTLSEvents fuel now c = Some (c', o) → R c (fetched fuel now c) c'.
Proof.
  intros Hstep Htrans. induction fuel as [|fuel IH]; intros c c' o; [done|].
  destruct (fetch c) as [e c1] eqn:Hf.
  rewrite (handleTLSEvents_step _ _ _ _ _ Hf). simpl. rewrite Hf.
  pose proof (Hstep c e c1 Hf) as H1.
  destruct (dispatch now e c1) as [c2 [|o2]]; simpl in H1.
  - intros Hrun. eapply Htrans; [exact H1|]. by eapply IH.
  - by intros [= <- <-].
Qed.

(** X1. No run of [handleTLSEvents], [handleCrypto] or [startTLS] ends in
    an index-out-of-range panic: every index into the per-space arrays is
    one [spaceForLevel] returned or one the [switch] of [handleCrypto]
    accepted. *)
Theorem X1_no_index_panic fuel now c :
  (∀ c' o, handleTLSEvents fuel now c = Some (c', o) → o ≠ Panicked) ∧
  (∀ space off data c' o,
     handleCrypto fuel now space off data c = Some (c', o) → o ≠ Panicked) ∧
  (∀ initialConnID params c' o,
     startTLS fuel now initialConnID params c = Some (c', o) → o ≠ Panicked).
Proof.
  assert (∀ fuel c c' o,
            handleTLSEvents fuel now c = Some (c', o) → o ≠ Panicked) as Hloop.
  { clear. induction fuel as [|fuel IH]; intros c c' o; [done|].
    destruct (fetch c) as [e c1] eqn:Hf.
    rewrite (handleTLSEvents_step _ _ _ _ _ Hf).
    pose proof (dispatch_no_panic now e c1) as Hnp.
    destruct (dispatch now e c1) as [c2 [|o2]]; simpl in Hnp.
    - apply IH.
    - intros [= <- <-]. congruence. }
  split_and!.
  - apply Hloop.
  - intros space off data c' o. unfold handleCrypto, handleCryptoData.
    destruct (levelForSpace space) as [level|] eqn:Hl; [|by intros [= <- <-]].
    assert (space = initialSpace ∨ space = handshakeSpace ∨ space = appDataSpace)
      as Hspace.
    { unfold levelForSpace in Hl. repeat case_decide; auto; done. }
    destruct Hspace as [-> | [-> | ->]]; simpl;
      destruct (cryptoStream_handleCrypto _ _ _ _ _) as [[s' st] [err|]]; simpl;
      first [by intros [= <- <-] | apply Hloop].
  - intros initialConnID params c' o. unfold startTLS.
    destruct (Start _) as [t [err|]]; [by intros [= <- <-] | apply Hloop].
Qed.

(** X2. On the client side a run of the loop never confirms the handshake
    and calls the engine for nothing but the next event, whatever events
    it fetches: the engine is the one reached by as many [NextEvent] calls
    as events were fetched. *)
Theorem X2_client_run_only_fetches fuel now c c' o :
  side c = clientSide →
  handleTLSEvents fuel now c = Some (c', o) →
  side c' = clientSide ∧
  handshakeConfirmed c' = handshakeConfirmed c ∧
  calls c' = calls c ∧
  tls c' = afterEvents (length (fetched fuel now c)) (tls c).
Proof.
  intros Hside Hrun. revert Hside.
  apply (handleTLSEvents_trace
    (λ c evs c', side c = clientSide →
       side c' = clientSide ∧ handshakeConfirmed c' = handshakeConfirmed c ∧
       calls c' = calls c ∧ tls c' = afterEvents (length evs) (tls c)) now)
    with (o := o); [| |exact Hrun].
  - clear. intros c e c1 Hf Hside.
    apply fetch_spec in Hf as (_ & Ht & _ & Hs).
    destruct Hs as (Hs1 & _ & _ & _ & _ & Hc1 & _ & Hcalls1).
    rewrite Hside in Hs1.
    destruct (dispatch_role now e c1) as (Hs2 & _ & _).
    destruct (dispatch_calls now e c1) as [Hcalls Htls].
    assert (asksTicket c1 e = false) as Hno.
    { unfold asksTicket. rewrite Hs1.
      rewrite (bool_decide_eq_false_2 (clientSide = serverSide)) by done.
      by rewrite andb_false_r. }
    rewrite Hno, app_nil_r in Hcalls. rewrite Hno in Htls.
    rewrite (dispatch_confirmed_client now e c1 Hs1).
    split_and!; simpl; congruence.
  - clear. intros c e c' evs c'' H1 H2 Hside.
    destruct (H1 Hside) as (Hs1 & Hc1 & Hcalls1 & Ht1).
    destruct (H2 Hs1) as (Hs2 & Hc2 & Hcalls2 & Ht2).
    split_and!; try congruence. simpl in *. by rewrite Ht2, Ht1.
Qed.

(** X3. A run of the loop changes neither the side nor the configuration,
    and the calls it makes on the engine besides [NextEvent] are one
    [SendSessionTicket(false)] for each [QUICHandshakeDone] it fetched,
    and those only on the server side with session tickets enabled. *)
Theorem X3_one_ticket_per_handshake_done fuel now c c' o :
  handleTLSEvents fuel now c = Some (c', o) →
  side c' = side c ∧ config c' = config c ∧
  calls c' = calls c ++
    (fetched fuel now c ≫= λ e,
       if asksTicket c e then [CallSendSessionTicket false] else []).
Proof.
  apply (handleTLSEvents_trace
    (λ c evs c', side c' = side c ∧ config c' = config c ∧
       calls c' = calls c ++
         (evs ≫= λ e, if asksTicket c e then [CallSendSessionTicket false]
                      else [])) now).
  - clear. intros c e c1 Hf.
    apply fetch_spec in Hf as (_ & _ & _ & Hs).
    destruct Hs as (Hs1 & Hcf1 & _ & _ & _ & _ & _ & Hcalls1).
    destruct (dispatch_role now e c1) as (Hs2 & Hcf2 & _).
    destruct (dispatch_calls now e c1) as [Hcalls _].
    split_and!; [congruence..|].
    rewrite Hcalls, Hcalls1. simpl. rewrite app_nil_r.
    unfold asksTicket. by rewrite Hs1, Hcf1.
  - clear. intros c e c' evs c'' (Hs1 & Hcf1 & Hcalls1) (Hs2 & Hcf2 & Hcalls2).
    split_and!; [congruence..|].
    rewrite Hcalls2, Hcalls1. simpl. rewrite !app_nil_r, <- app_assoc.
    do 2 f_equal. unfold asksTicket. by rewrite Hs1, Hcf1.
Qed.



End WholeRuns.

Section WholeRunsMore.

Context {T keys transportParameters : Type}.
Context `{!QUICConn T, !KeySchedule keys, !ParamCodec transportParameters}.

Local Abbreviation Conn := (@Conn T keys transportParameters).

Implicit Types (c : Conn) (e : QUICEvent) (now : Time).

(** X5. After a run of the loop the stream of each space is the stream
    from before the run with the data of the [QUICWriteData] events at
    that space's level written to it, one [write] per event in the order
    the events were fetched; the run does nothing else to a stream. *)
Theorem X5_writes_in_event_order fuel now c c' o space :
  handleTLSEvents fuel now c = Some (c', o) →
  arr_get (crypto c') space =
    (λ s, foldl (λ s b, cryptoStream_write b s) s
            (omap (writtenTo space) (fetched fuel now c)))
    <$> arr_get (crypto c) space.
Proof.
  apply (handleTLSEvents_trace
    (λ c evs c',
       arr_get (crypto c') space =
         (λ s, foldl (λ s b, cryptoStream_write b s) s
                 (omap (writtenTo space) evs)) <$> arr_get (crypto c) space) now).
  - clear. intros c e c1 Hf.
    apply fetch_spec in Hf as (_ & _ & _ & Hs).
    destruct Hs as (_ & _ & _ & _ & Hcr & _).
    rewrite dispatch_crypto_at, Hcr. simpl.
    destruct (writtenTo space e); [done|]. by destruct (arr_get _ _).
  - clear. intros c e c' evs c'' H1 H2. rewrite H2, H1. simpl.
    destruct (writtenTo space e), (arr_get (crypto c) space); done.
Qed.

(** X6. A test hook is shown every event the loop fetches, in the order
    fetched and including the one the loop stops on; a connection without
    a hook stays without one. *)
Theorem X6_hook_sees_every_event fuel now c c' o :
  handleTLSEvents fuel now c = Some (c', o) →
  testHooks c' = (λ seen, seen ++ fetched fuel now c) <$> testHooks c.
Proof.
  apply (handleTLSEvents_trace
    (λ c evs c', testHooks c' = (λ seen, seen ++ evs) <$> testHooks c) now).
  - clear. intros c e c1 Hf.
    apply fetch_spec in Hf as (_ & _ & Hh & _).
    destruct (dispatch_role now e c1) as (_ & _ & ->). done.
  - clear. intros c e c' evs c'' H1 H2. rewrite H2, H1.
    destruct (testHooks c); simpl; [|done]. by rewrite <- app_assoc.
Qed.




(** X9. The loop stops at the first [QUICNoEvent]: of the events a run
    fetched, which are at most as many as the passes allowed, only the
    last can be [QUICNoEvent], and it is exactly when the run returns
    [nil]. *)
Theorem X9_stops_at_first_no_event fuel now c c' o :
  handleTLSEvents fuel now c = Some (c', o) →
  ∃ evs e, fetched fuel now c = evs ++ [e] ∧
    (length (fetched fuel now c) ≤ fuel)%nat ∧
    Forall (λ e', Kind e' ≠ QUICNoEvent) evs ∧
    (o = Returned None ↔ Kind e = QUICNoEvent).
Proof.
  revert c. induction fuel as [|fuel IH]; intros c; [done|].
  destruct (fetch c) as [e c1] eqn:Hf.
  rewrite (handleTLSEvents_step _ _ _ _ _ Hf). simpl. rewrite Hf.
  pose proof (dispatch_returns_nil now e c1) as Hnil.
  destruct (dispatch now e c1) as [c2 [|o2]]; simpl in Hnil.
  - intros Hrun. destruct (IH _ Hrun) as (evs & e' & -> & Hlen & Hall & Hiff).
    exists (e :: evs), e'. split; [done|]. split; [simpl; lia|].
    split; [|done]. constructor; [|done]. intros Hk. by apply Hnil in Hk.
  - intros [= <- <-]. exists [], e. split; [done|]. split; [simpl; lia|].
    split; [constructor|]. rewrite <- Hnil. split; congruence.
Qed.

(** X10. The parameter sink receives the parameters of every
    [QUICTransportParameters] event whose payload parses, once each and in
    the order the events were fetched, and nothing else. *)
Theorem X10_parameters_in_event_order fuel now c c' o :
  handleTLSEvents fuel now c = Some (c', o) →
  peerParams c' = peerParams c ++ omap parsedParams (fetched fuel now c).
Proof.
  apply (handleTLSEvents_trace
    (λ c evs c', peerParams c' = peerParams c ++ omap parsedParams evs) now).
  - clear. intros c e c1 Hf.
    apply fetch_spec in Hf as (_ & _ & _ & Hs).
    destruct Hs as (_ & _ & _ & _ & _ & _ & Hp & _).
    rewrite dispatch_peerParams, Hp. simpl. by destruct (parsedParams e).
  - clear. intros c e c' evs c'' H1 H2. rewrite H2, H1. simpl.
    destruct (parsedParams e); simpl; by rewrite <- app_assoc.
Qed.

End WholeRunsMore.

(** ** [startTLS] and [handleCrypto] as wholes *)

Section Entrypoints.

Context {T keys transportParameters : Type}.
Context `{!QUICConn T, !KeySchedule keys, !ParamCodec transportParameters}.

Local Abbreviation Conn := (@Conn T keys transportParameters).

Implicit Types (c : Conn) (e : QUICEvent) (now : Time).

(** X11. When the engine's [Start] fails, [startTLS] returns that error
    without entering the loop: no event is fetched and the streams, the
    confirmation flag and the parameter sink are untouched.  The keys of
    the initial space are installed all the same (client keys for writing
    and server keys for reading on the client side, the other way round
    on the server side), the other slots keep their keys, and the
    connection has the new engine. *)
Theorem X11_start_failure fuel now initialConnID params c t err :
  Start (tls (newEngine params (installInitialKeys initialConnID c)))
    = (t, Some err) →
  ∃ c', startTLS fuel now initialConnID params c
          = Some (c', Returned (Some err)) ∧
    tls c' = t ∧ testHooks c' = testHooks c ∧ crypto c' = crypto c ∧
    calls c' = calls c ∧ handshakeConfirmed c' = handshakeConfirmed c ∧
    peerParams c' = peerParams c ∧
    arr_get (wkeys c') initialSpace =
      Some (if decide (side c = clientSide) then fst (initialKeys initialConnID)
            else snd (initialKeys initialConnID)) ∧
    arr_get (rkeys c') initialSpace =
      Some (if decide (side c = clientSide) then snd (initialKeys initialConnID)
            else fst (initialKeys initialConnID)) ∧
    ∀ space, space ≠ initialSpace →
      arr_get (rkeys c') space = arr_get (rkeys c) space ∧
      arr_get (wkeys c') space = arr_get (wkeys c) space.
Proof.
  intros Hstart. unfold startTLS. rewrite Hstart. eexists. split; [done|].
  unfold newEngine, installInitialKeys.
  destruct (initialKeys initialConnID) as [ck sk].
  destruct (decide (side c = clientSide)) as [Hs|Hs]; simpl;
    destruct (decide (side c = clientSide)); try done; simpl;
    split_and!; try done;
    intros [|[[]|[]|]|] Hne; done.
Qed.

(** X12. [startTLS] returns whenever the engine it started yields
    [QUICNoEvent] after at most [n] other events: with more than [n]
    passes allowed it gives a result, which is no panic; it is the error
    of [Start] when [Start] failed and the result of the loop on the
    started connection otherwise. *)
Theorem X12_startTLS_returns n now initialConnID params c :
  let c1 := newEngine params (installInitialKeys initialConnID c) in
  quiescesWithin n (fst (Start (tls c1))) = true →
  ∃ c' o,
    (∀ fuel, (n < fuel)%nat →
       startTLS fuel now initialConnID params c = Some (c', o)) ∧
    o ≠ Panicked ∧
    (∀ err, snd (Start (tls c1)) = Some err → o = Returned (Some err)) ∧
    (snd (Start (tls c1)) = None →
       drainsTo n now (set_tls (fst (Start (tls c1))) c1) c' o).
Proof.
  intros c1 Hq. unfold startTLS. fold c1.
  destruct (Start (tls c1)) as [t [err|]] eqn:Hstart; simpl in *.
  - exists (set_tls t c1), (Returned (Some err)).
    split_and!; [done | done | by intros ? [= <-] | done].
  - destruct (drain_quiesces n now (set_tls t c1) Hq) as (c' & o & Hd & Hrun).
    exists c', o. split_and!; [| |done|done].
    + intros fuel Hfuel. eapply handleTLSEvents_mono; [done | lia].
    + by destruct Hd as (k & ck & _ & _ & _ & Hnp & _).
Qed.

(** The calls [handleCrypto] makes before it enters the loop hand the
    engine data at the level of the frame's space and nothing else. *)
Lemma handleCryptoData_calls space off data c :
  ∃ bs, calls (fst (handleCryptoData space off data c)) =
    calls c ++ match levelForSpace space with
               | Some level => CallHandleData level <$> bs
               | None => []
               end.
Proof.
  unfold handleCryptoData.
  destruct (levelForSpace space) as [level|];
    [|exists []; simpl; by rewrite app_nil_r].
  destruct (arr_get (crypto c) space) as [s|];
    [|exists []; simpl; by rewrite app_nil_r].
  unfold cryptoStream_handleCrypto.
  destruct (insertAt off data (inbuf s)) as [m|].
  2:{ destruct (arr_set _ _ _); exists []; simpl; by rewrite app_nil_r. }
  destruct (available _) as [|x chunk].
  { destruct (arr_set _ _ _); exists []; simpl; by rewrite app_nil_r. }
  unfold feed. simpl. destruct (HandleData level (x :: chunk) (tls c)) as [t [err|]];
    destruct (arr_set _ _ _); simpl;
    first [by exists [x :: chunk] | exists []; simpl; by rewrite app_nil_r].
Qed.

(** X13. Up to the point where it enters the loop, [handleCrypto] works
    on the stream of the frame's space and on the engine only: the side,
    the configuration, the test hook, every key slot, the confirmation
    flag, the parameter sink and the streams of the other spaces are
    unchanged, and the engine is handed data at the level of that space
    and at no other. *)
Theorem X13_handleCrypto_touches_one_stream space off data c :
  let c1 := fst (handleCryptoData space off data c) in
  side c1 = side c ∧ config c1 = config c ∧ testHooks c1 = testHooks c ∧
  rkeys c1 = rkeys c ∧ wkeys c1 = wkeys c ∧
  handshakeConfirmed c1 = handshakeConfirmed c ∧
  peerParams c1 = peerParams c ∧
  (∀ j, j ≠ space → arr_get (crypto c1) j = arr_get (crypto c) j) ∧
  ∃ bs, calls c1 = calls c ++ match levelForSpace space with
                              | Some level => CallHandleData level <$> bs
                              | None => []
                              end.
Proof.
  intros c1. split_and!; try apply handleCryptoData_calls;
    subst c1; unfold handleCryptoData;
    destruct (levelForSpace space) as [level|]; try done;
    destruct (arr_get (crypto c) space) as [s|]; try done;
    destruct (cryptoStream_handleCrypto _ _ _ _ _) as [[s' st] err];
    destruct (arr_set (crypto c) space s') as [a|] eqn:Hset; try done;
    destruct err; try done.
  all: intros j Hj; simpl; by eapply arr_get_set_ne.
Qed.

(** X14. Data that arrives for one space is never handed to the engine at
    the level of another: after [handleCrypto], loop included, the bytes
    handed over at any level other than the one of the frame's space are
    those from before the call. *)
Theorem X14_no_data_at_other_levels fuel now space off data c c' o level level' :
  levelForSpace space = Some level →
  level' ≠ level →
  handleCrypto fuel now space off data c = Some (c', o) →
  fedAt level' (calls c') = fedAt level' (calls c).
Proof.
  intros Hlevel Hne. unfold handleCrypto.
  destruct (handleCryptoData_calls space off data c) as [bs Hcalls].
  rewrite Hlevel in Hcalls.
  assert (fedAt level' (calls (fst (handleCryptoData space off data c)))
          = fedAt level' (calls c)) as Hfed.
  { rewrite Hcalls, fedAt_app.
    assert (fedAt level' (CallHandleData level <$> bs) = []) as ->;
      [|by rewrite app_nil_r].
    clear -Hne. induction bs as [|b bs IH]; [done|]. simpl.
    rewrite decide_False by done. exact IH. }
  destruct (handleCryptoData space off data c) as [c1 [|o1]]; simpl in *.
  - intros Hrun.
    destruct (handleTLSEvents_inbound _ _ _ _ _ level' initialSpace
                (atInitial (crypto c1)) Hrun eq_refl) as [-> _].
    done.
  - by intros [= <- <-].
Qed.

End Entrypoints.

(** ** Concrete runs for the further properties *)

Lemma X1_witness :
  let c := Fake.conn serverSide false
             [mkEvent QUICWriteData QUICEncryptionLevelApplication ["a"%byte] 0;
              mkEvent QUICHandshakeDone 0 [] 0] in
  match handleTLSEvents 6 0 c,
        handleCrypto 6 0 appDataSpace 0 ["x"%byte] c,
        startTLS 6 0 ["i"%byte] [] c with
  | Some (_, o1), Some (_, o2), Some (_, o3) =>
      o1 ≠ Panicked ∧ o2 ≠ Panicked ∧ o3 ≠ Panicked
  | _, _, _ => False
  end.
Proof.
  intros c.
  destruct (X1_no_index_panic 6 0 c) as (H1 & H2 & H3).
  destruct (handleTLSEvents 6 0 c) as [[c1 o1]|] eqn:Hr1;
    [|vm_compute in Hr1; discriminate Hr1].
  destruct (handleCrypto 6 0 appDataSpace 0 ["x"%byte] c) as [[c2 o2]|] eqn:Hr2;
    [|vm_compute in Hr2; discriminate Hr2].
  destruct (startTLS 6 0 ["i"%byte] [] c) as [[c3 o3]|] eqn:Hr3;
    [|vm_compute in Hr3; discriminate Hr3].
  split; [exact (H1 _ _ eq_refl)|].
  split; [exact (H2 _ _ _ _ _ Hr2) | exact (H3 _ _ _ _ Hr3)].
Defined.

Lemma X2_witness :
  let c := Fake.conn clientSide false
             [mkEvent QUICWriteData QUICEncryptionLevelInitial ["a"%byte] 0;
              mkEvent QUICHandshakeDone 0 [] 0] in
  match handleTLSEvents 5 7 c with
  | Some (c', _) =>
      handshakeConfirmed c' = None ∧ calls c' = [] ∧
      tls c' = afterEvents 3 (tls c)
  | None => False
  end.
Proof.
  intros c.
  destruct (handleTLSEvents 5 7 c) as [[c' o]|] eqn:Hrun;
    [|vm_compute in Hrun; discriminate Hrun].
  destruct (X2_client_run_only_fetches 5 7 c c' o eq_refl Hrun)
    as (_ & Hflag & Hcalls & Htls).
  split; [exact Hflag|]. split; [exact Hcalls | exact Htls].
Defined.

Lemma X3_witness :
  let c := Fake.conn serverSide false
             [mkEvent QUICHandshakeDone 0 [] 0;
              mkEvent QUICHandshakeDone 0 [] 0] in
  match handleTLSEvents 9 7 c with
  | Some (c', _) =>
      calls c' = [CallSendSessionTicket false; CallSendSessionTicket false]
  | None => False
  end.
Proof.
  intros c.
  destruct (handleTLSEvents 9 7 c) as [[c' o]|] eqn:Hrun;
    [|vm_compute in Hrun; discriminate Hrun].
  destruct (X3_one_ticket_per_handshake_done 9 7 c c' o Hrun) as (_ & _ & Hcalls).
  exact Hcalls.
Defined.


Lemma X5_witness :
  let c := Fake.conn serverSide true
             [mkEvent QUICWriteData QUICEncryptionLevelHandshake ["a"%byte] 0;
              mkEvent QUICWriteData QUICEncryptionLevelInitial ["i"%byte] 0;
              mkEvent QUICWriteData QUICEncryptionLevelHandshake ["b"%byte] 0] in
  match handleTLSEvents 9 0 c with
  | Some (c', _) =>
      arr_get (crypto c') handshakeSpace =
      Some (cryptoStream_write ["b"%byte]
              (cryptoStream_write ["a"%byte] emptyStream))
  | None => False
  end.
Proof.
  intros c.
  destruct (handleTLSEvents 9 0 c) as [[c' o]|] eqn:Hrun;
    [|vm_compute in Hrun; discriminate Hrun].
  exact (X5_writes_in_event_order 9 0 c c' o handshakeSpace Hrun).
Defined.

Lemma X6_witness :
  let e1 := mkEvent QUICWriteData QUICEncryptionLevelInitial ["a"%byte] 0 in
  let e2 := mkEvent QUICSetReadSecret QUICEncryptionLevelEarly ["k"%byte] 0x1301 in
  let c := set_testHooks (Some []) (Fake.conn clientSide false [e1; e2; e1]) in
  match handleTLSEvents 9 0 c with
  | Some (c', _) => testHooks c' = Some [e1; e2]
  | None => False
  end.
Proof.
  intros e1 e2 c.
  destruct (handleTLSEvents 9 0 c) as [[c' o]|] eqn:Hrun;
    [|vm_compute in Hrun; discriminate Hrun].
  exact (X6_hook_sees_every_event 9 0 c c' o Hrun).
Defined.


Lemma X9_witness :
  let c := Fake.conn clientSide false
             [mkEvent QUICWriteData QUICEncryptionLevelInitial ["a"%byte] 0;
              Fake.noEvent;
              mkEvent QUICWriteData QUICEncryptionLevelInitial ["z"%byte] 0] in
  match handleTLSEvents 9 0 c with
  | Some (c', o) =>
      ∃ evs e, fetched 9 0 c = evs ++ [e] ∧ (length (fetched 9 0%Z c) ≤ 9)%nat ∧
        Forall (λ e', Kind e' ≠ QUICNoEvent) evs ∧
        (o = Returned None ↔ Kind e = QUICNoEvent)
  | None => False
  end.
Proof.
  intros c.
  destruct (handleTLSEvents 9 0 c) as [[c' o]|] eqn:Hrun;
    [|vm_compute in Hrun; discriminate Hrun].
  exact (X9_stops_at_first_no_event 9 0 c c' o Hrun).
Defined.

Lemma X10_witness :
  let c := Fake.conn clientSide false
             [mkEvent QUICTransportParameters 0 ["p"%byte] 0;
              mkEvent QUICWriteData QUICEncryptionLevelInitial ["a"%byte] 0;
              mkEvent QUICTransportParameters 0 ["q"%byte] 0] in
  match handleTLSEvents 9 0 c with
  | Some (c', _) => peerParams c' = [["p"%byte]; ["q"%byte]]
  | None => False
  end.
Proof.
  intros c.
  destruct (handleTLSEvents 9 0 c) as [[c' o]|] eqn:Hrun;
    [|vm_compute in Hrun; discriminate Hrun].
  exact (X10_parameters_in_event_order 9 0 c c' o Hrun).
Defined.

Lemma X11_witness :
  ∃ c', startTLS 0 0 ["i"%byte] [] (Broken.conn serverSide)
          = Some (c', Returned (Some (errOther 3))) ∧
        tls c' = Broken.server ∧
        arr_get (wkeys c') initialSpace = Some (Fake.initial true ["i"%byte]) ∧
        arr_get (rkeys c') initialSpace = Some (Fake.initial false ["i"%byte]).
Proof.
  destruct (X11_start_failure 0 0 ["i"%byte] [] (Broken.conn serverSide)
              Broken.server (errOther 3))
    as (c' & Hrun & Htls & _ & _ & _ & _ & _ & Hw & Hr & _); [reflexivity|].
  exists c'. split; [exact Hrun|]. split; [exact Htls|].
  split; [exact Hw | exact Hr].
Defined.

Lemma X12_witness :
  let c := Fake.conn clientSide false [] in
  let c1 := newEngine [] (installInitialKeys ["i"%byte] c) in
  ∃ c' o,
    (∀ fuel, (1 < fuel)%nat → startTLS fuel 0 ["i"%byte] [] c = Some (c', o)) ∧
    o ≠ Panicked ∧
    (∀ err, snd (Start (tls c1)) = Some err → o = Returned (Some err)) ∧
    (snd (Start (tls c1)) = None →
       drainsTo 1 0 (set_tls (fst (Start (tls c1))) c1) c' o).
Proof.
  intros c c1.
  apply (X12_startTLS_returns 1 0 ["i"%byte] [] c). reflexivity.
Defined.

Lemma X14_witness :
  let c := Fake.conn serverSide false [] in
  match handleCrypto 9 0 initialSpace 0 ["x"%byte] c with
  | Some (c', _) =>
      fedAt QUICEncryptionLevelHandshake (calls c') = [] ∧
      fedAt QUICEncryptionLevelApplication (calls c') = []
  | None => False
  end.
Proof.
  intros c.
  destruct (handleCrypto 9 0 initialSpace 0 ["x"%byte] c) as [[c' o]|] eqn:Hrun;
    [|vm_compute in Hrun; discriminate Hrun].
  split.
  - apply (X14_no_data_at_other_levels 9 0 initialSpace 0 ["x"%byte] c c' o
             QUICEncryptionLevelInitial QUICEncryptionLevelHandshake);
      [reflexivity | discriminate | exact Hrun].
  - apply (X14_no_data_at_other_levels 9 0 initialSpace 0 ["x"%byte] c c' o
             QUICEncryptionLevelInitial QUICEncryptionLevelApplication);
      [reflexivity | discriminate | exact Hrun].
Defined.
